(** * ConceptsBlog: the markdown ingestion and listing module

    A shallow embedding of [lib/posts.ts] ([getPostBySlug], [getPosts],
    [getPostMetadata]) and of the filter of [components/PostWithSearch.tsx],
    together with the properties of the catalog that the specification
    states about them.

    JavaScript objects produced by the front-matter parser are finite maps
    from property names to values ([gmap string value]); exceptions are
    explicit ([completion]); an [async] function yields a settled
    [Promise]; the platform the module runs on (the [fs], [path] and
    [gray-matter] modules, [Date.parse], [String.prototype.toLowerCase]) is
    an interface, [Platform], of which [node] is one executable instance. *)

From stdpp Require Import gmap strings list sorting.
From Stdlib Require Import Ascii QArith.

Open Scope string_scope.
Open Scope Z_scope.

(** ** JavaScript values and control *)

(** A JavaScript [number]: a double is [NaN], an infinity, or a finite
    rational (the finite doubles are the dyadic rationals; [-0] is any
    [Finite] with numerator [0] and behaves like [+0] everywhere below). *)
Inductive number : Type :=
  | NaN
  | Infinity (negative : bool)
  | Finite (q : Q).

(** The scalars a front-matter header yields: a string, a timestamp
    (an unquoted [2025-05-18], as in [data/Spring.md], is a [Date] object
    carrying its time value in milliseconds), a number, a boolean, or
    [null] (an empty [image:]). *)
Inductive value : Type :=
  | VStr (s : string)
  | VDate (t : Z)
  | VNum (n : number)
  | VBool (b : bool)
  | VNull.

Inductive exn : Type :=
  | SystemError
  | YAMLException
  | TypeError.

(** The outcome of evaluating synchronous code. *)
Inductive completion (A : Type) : Type :=
  | Return (a : A)
  | Throw (e : exn).
Arguments Return {A} a.
Arguments Throw {A} e.

(** The settled state of the promise an [async] function returns. *)
Inductive Promise (A : Type) : Type :=
  | Fulfilled (a : A)
  | Rejected (e : exn).
Arguments Fulfilled {A} a.
Arguments Rejected {A} e.

(** Sequencing: an exception skips the rest. *)
#[global] Instance completion_bind : MBind completion := λ A B k c,
  match c with
  | Return a => k a
  | Throw e => Throw e
  end.

(** [try { c } catch { h }] *)
Definition try_catch {A : Type} (c : completion A) (h : exn → completion A) : completion A :=
  match c with
  | Return a => Return a
  | Throw e => h e
  end.

(** The body of an [async] function: a return fulfils the promise, an
    exception that escapes rejects it. *)
Definition async {A : Type} (c : completion A) : Promise A :=
  match c with
  | Return a => Fulfilled a
  | Throw e => Rejected e
  end.

(** [Array.prototype.map] with a callback that may throw: the elements are
    visited in order and the first exception ends the call. *)
Fixpoint Array_map {A B : Type} (f : A → completion B) (l : list A) : completion (list B) :=
  match l with
  | [] => Return []
  | x :: l' => y ← f x ; ys ← Array_map f l' ; Return (y :: ys)
  end.

(** [Array.prototype.filter] with a callback that may throw and whose
    result is coerced with ToBoolean by [truthy]. *)
Fixpoint Array_filter {A R : Type} (truthy : R → bool) (f : A → completion R) (l : list A)
    : completion (list A) :=
  match l with
  | [] => Return []
  | x :: l' =>
      r ← f x ; ys ← Array_filter truthy f l' ;
      Return (if truthy r then x :: ys else ys)
  end.

(** [Array.prototype.sort] with a comparator. The sort is stable
    (ECMAScript 2019) and the comparators used here are consistent, so the
    result does not depend on the engine's algorithm; it is computed by
    insertion: [x], which stood before everything in [l], goes in front of
    the first [y] that the comparator does not order before it. *)
Fixpoint sort_insert {A : Type} (cmp : A → A → Z) (x : A) (l : list A) : list A :=
  match l with
  | [] => [x]
  | y :: l' => if cmp x y <=? 0 then x :: y :: l' else y :: sort_insert cmp x l'
  end.

Fixpoint Array_sort {A : Type} (cmp : A → A → Z) (l : list A) : list A :=
  match l with
  | [] => []
  | x :: l' => sort_insert cmp x (Array_sort cmp l')
  end.

(** ToBoolean on a number: [0], [-0] and [NaN] are falsy. *)
Definition number_truthy (n : number) : bool :=
  match n with
  | NaN => false
  | Infinity _ => true
  | Finite q => negb (Qnum q =? 0)
  end.

(** Truncation of a finite number towards zero. *)
Definition truncate (q : Q) : Z := Z.quot (Qnum q) (Z.pos (Qden q)).

(** [Array.prototype.slice(0, end)]: the end index is ToIntegerOrInfinity
    of [end], counted from the back when negative, clamped to the length. *)
Definition slice0 {A : Type} (l : list A) (end_ : number) : list A :=
  let len := Z.of_nat (length l) in
  let final :=
    match end_ with
    | NaN => 0
    | Infinity true => 0
    | Infinity false => len
    | Finite q =>
        let relativeEnd := truncate q in
        if relativeEnd <? 0 then Z.max (len + relativeEnd) 0 else Z.min relativeEnd len
    end in
  take (Z.to_nat final) l.

(** [String.prototype.endsWith] *)
Definition endsWith (s suffix : string) : bool :=
  let n := String.length s in
  let k := String.length suffix in
  (k <=? n)%nat && String.eqb (String.substring (n - k) k s) suffix.

(** [String.prototype.includes]: [search] occurs in [s] at some position. *)
Fixpoint includes (s search : string) : bool :=
  String.prefix search s ||
  match s with
  | EmptyString => false
  | String _ s' => includes s' search
  end.

(** ** The platform *)

(** What [matter(input)] returns, as far as this module reads it. *)
Record GrayMatterFile : Type := {
  data : gmap string value;
  content : string;
}.

(** The modules the code imports and the built-ins it calls.
    [readdirSync], [readFileSync] and [matter] throw on failure;
    [Date_parse] is [None] where [Date.parse] is [NaN]. *)
Class Platform : Type := {
  readdirSync : string → completion (list string);
  readFileSync : string → completion string;
  path_join : string → string → string;
  matter : string → completion GrayMatterFile;
  Date_parse : string → option Z;
  Date_parse_empty : Date_parse "" = None;
  toLowerCase : string → string;
  toLowerCase_empty : toLowerCase "" = "";
}.

(** ** lib/posts.ts *)

(** [PostMetadata]: the front-matter object with the [slug] property.
    The declared fields [title], [summary], [publishedAt] and [image] are
    optional; the object carries whatever keys the header has. *)
Abbreviation PostMetadata := (gmap string value).

(** [Post]; its [content] field is [post_content] here, [content] being
    the field of [GrayMatterFile]. *)
Record Post : Type := {
  metadata : PostMetadata;
  post_content : string;
}.

(** The time value of a number: none when it is not finite or beyond
    8.64e15 in magnitude, else the number truncated. *)
Definition time_clip (n : number) : option Z :=
  match n with
  | Finite q =>
      if Z.abs (Qnum q) <=? 8640000000000000 * Z.pos (Qden q)
      then Some (truncate q) else None
  | _ => None
  end.

(** [new Date(v)] as its time value, [None] for an invalid date. *)
Definition new_Date `{Platform} (v : value) : option Z :=
  match v with
  | VStr s => Date_parse s
  | VDate t => Some t
  | VNum n => time_clip n
  | VBool b => Some (if b then 1 else 0)
  | VNull => Some 0
  end.

(** [x ?? ""] on a property that may be absent *)
Definition nullish_or_empty (x : option value) : value :=
  match x with
  | None | Some VNull => VStr ""
  | Some v => v
  end.

(** [t || 0] on a time value: [NaN] and [0] are falsy. *)
Definition or_zero (t : option Z) : Z :=
  match t with
  | Some t => if t =? 0 then 0 else t
  | None => 0
  end.

(** [new Date(p.publishedAt ?? "").getTime() || 0] *)
Definition timestamp `{Platform} (p : PostMetadata) : Z :=
  or_zero (new_Date (nullish_or_empty (p !! "publishedAt"))).

(** The comparator of [getPosts]. Time values are integers of magnitude
    at most 8.64e15, so the sign of the difference of the two doubles is
    the sign of the exact difference, and the sign is all [sort] reads. *)
Definition by_publishedAt `{Platform} (a b : PostMetadata) : Z :=
  timestamp b - timestamp a.

(** [filePath.replace(/\.md$/, "")] *)
Definition strip_md (filePath : string) : string :=
  if endsWith filePath ".md"
  then String.substring 0 (String.length filePath - 3) filePath
  else filePath.

Definition getPostMetadata `{Platform} (rootDir filePath : string) : completion PostMetadata :=
  let slug := strip_md filePath in
  fileContents ← readFileSync (path_join rootDir filePath) ;
  file ← matter fileContents ;
  Return (<["slug" := VStr slug]> (data file)).

Definition getPostBySlug `{Platform} (rootDir slug : string) : Promise (option Post) :=
  async (try_catch
    (let filePath := path_join rootDir (slug +:+ ".md") in
     fileContents ← readFileSync filePath ;
     file ← matter fileContents ;
     Return (Some {| metadata := <["slug" := VStr slug]> (data file);
                     post_content := content file |}))
    (fun _ => Return None)).

(** [limit] is [None] when the argument is omitted ([undefined]). *)
Definition getPosts `{Platform} (rootDir : string) (limit : option number)
    : Promise (list PostMetadata) :=
  async (
    files ← readdirSync rootDir ;
    mapped ← Array_map (getPostMetadata rootDir)
               (List.filter (fun file => endsWith file ".md") files) ;
    let posts := Array_sort by_publishedAt mapped in
    match limit with
    | Some n => if number_truthy n then Return (slice0 posts n) else Return posts
    | None => Return posts
    end).

(** ** components/PostWithSearch.tsx *)

(** The filter callback,
    [post.title?.toLowerCase().includes(query.toLowerCase())]: an absent or
    [null] title ends the optional chain with [undefined] ([None]); a title
    that is not a string has no [toLowerCase] method, and calling it throws. *)
Definition title_includes `{Platform} (query : string) (post : PostMetadata)
    : completion (option bool) :=
  match post !! "title" with
  | None | Some VNull => Return None
  | Some (VStr title) => Return (Some (includes (toLowerCase title) (toLowerCase query)))
  | Some _ => Throw TypeError
  end.

(** ToBoolean on the callback's result *)
Definition truthy (r : option bool) : bool :=
  match r with
  | Some b => b
  | None => false
  end.

(** [const filtered = posts.filter(...)] of [PostsWithSearch] *)
Definition filtered `{Platform} (posts : list PostMetadata) (query : string)
    : completion (list PostMetadata) :=
  Array_filter truthy (title_includes query) posts.

(** ** An executable platform *)

(** A content store: a directory and the files in it, in the order the
    directory enumerates them, each with its text. *)
Record Store : Type := {
  store_root : string;
  store_files : list (string * string);
}.

Definition is_space (c : ascii) : bool :=
  Ascii.eqb c " " || Ascii.eqb c "009" || Ascii.eqb c "013".

Fixpoint trim_left (s : string) : string :=
  match s with
  | String c s' => if is_space c then trim_left s' else s
  | EmptyString => EmptyString
  end.

Fixpoint trim_right (s : string) : string :=
  match s with
  | String c s' =>
      let r := trim_right s' in
      if is_space c && String.eqb r "" then "" else String c r
  | EmptyString => EmptyString
  end.

Definition trim (s : string) : string := trim_right (trim_left s).

Fixpoint split_on (sep : ascii) (s : string) : list string :=
  match s with
  | EmptyString => [""]
  | String c s' =>
      match split_on sep s' with
      | w :: ws => if Ascii.eqb c sep then "" :: w :: ws else String c w :: ws
      | [] => [String c ""]
      end
  end.

Definition digit (c : ascii) : option Z :=
  let n := Z.of_N (N_of_ascii c) in
  if (48 <=? n) && (n <=? 57) then Some (n - 48) else None.

(** Days from 1970-01-01 to the given day of the proleptic Gregorian
    calendar. *)
Definition days_from_civil (y m d : Z) : Z :=
  let y' := if m <=? 2 then y - 1 else y in
  let era := y' / 400 in
  let yoe := y' - era * 400 in
  let doy := (153 * (if m <=? 2 then m + 9 else m - 3) + 2) / 5 + d - 1 in
  let doe := yoe * 365 + yoe / 4 - yoe / 100 + doy in
  era * 146097 + doe - 719468.

(** [Date.parse] on the date-only form [YYYY-MM-DD], which ECMAScript reads
    as midnight UTC; every other text counts as unparseable here. *)
Definition parse_iso_date (s : string) : option Z :=
  match s with
  | String y1 (String y2 (String y3 (String y4 (String "-"
      (String m1 (String m2 (String "-" (String d1 (String d2 EmptyString))))))))) =>
      y1 ← digit y1; y2 ← digit y2; y3 ← digit y3; y4 ← digit y4;
      m1 ← digit m1; m2 ← digit m2; d1 ← digit d1; d2 ← digit d2;
      let y := 1000 * y1 + 100 * y2 + 10 * y3 + y4 in
      let m := 10 * m1 + m2 in
      let d := 10 * d1 + d2 in
      if (1 <=? m) && (m <=? 12) && (1 <=? d) && (d <=? 31)
      then Some (days_from_civil y m d * 86400000)
      else None
  | _ => None
  end.

Definition lower_ascii (c : ascii) : ascii :=
  let n := N_of_ascii c in
  if ((65 <=? n) && (n <=? 90))%N then ascii_of_N (n + 32) else c.

Fixpoint lower (s : string) : string :=
  match s with
  | String c s' => String (lower_ascii c) (lower s')
  | EmptyString => EmptyString
  end.

(** Modelled from the spec: a header value of the parser behind [matter].
    Empty is [null], a double-quoted text is its inside, a bare date is a
    timestamp, any other bare text is a string. *)
Definition yaml_scalar (v : string) : value :=
  match v with
  | EmptyString => VNull
  | String c rest =>
      if Ascii.eqb c "034" && endsWith rest (String "034" "")
      then VStr (String.substring 0 (String.length rest - 1) rest)
      else match parse_iso_date v with
           | Some t => VDate t
           | None => VStr v
           end
  end.

(** Modelled from the spec: one header line of the parser behind [matter],
    [key: value], added to the mapping read so far; blank lines are skipped
    and a line without a colon is a syntax error. *)
Definition yaml_line (acc : gmap string value) (line : string) : completion (gmap string value) :=
  if String.eqb (trim line) "" then Return acc
  else match String.index 0 ":" line with
       | Some i =>
           let key := trim (String.substring 0 i line) in
           let v := trim (String.substring (S i) (String.length line - S i) line) in
           Return (<[key := yaml_scalar v]> acc)
       | None => Throw YAMLException
       end.

Fixpoint yaml_lines (acc : gmap string value) (lines : list string)
    : completion (gmap string value) :=
  match lines with
  | [] => Return acc
  | line :: rest => acc' ← yaml_line acc line; yaml_lines acc' rest
  end.

Definition drop_newline (s : string) : string :=
  match s with
  | String "010" s' => s'
  | _ => s
  end.

(** Modelled from the spec: the [matter] function of the [gray-matter]
    package, which is not part of this repository's sources. The header
    block starts at a line of three dashes at the very start of the file
    and runs to the next such line; it holds line-oriented [key: value]
    pairs; what follows the closing marker is the body. A file that does
    not start with the marker is all body and has an empty mapping; a
    malformed header fails with a parse error. *)
Definition parse_matter (input : string) : completion GrayMatterFile :=
  if negb (String.prefix "---" input) || String.prefix "----" input
  then Return {| data := ∅; content := input |}
  else
    let str := String.substring 3 (String.length input - 3) input in
    let close := String "010" "---" in
    let len := String.length str in
    let closeIndex := default len (String.index 0 close str) in
    header ← yaml_lines ∅ (split_on "010" (String.substring 0 closeIndex str));
    Return {| data := header;
              content := drop_newline
                (String.substring (closeIndex + 4) (len - (closeIndex + 4)) str) |}.

Definition store_readdir (s : Store) (dir : string) : completion (list string) :=
  if String.eqb dir (store_root s) then Return (store_files s).*1 else Throw SystemError.

Definition store_join (dir name : string) : string := dir +:+ "/" +:+ name.

Definition store_read (s : Store) (p : string) : completion string :=
  match list_find (fun f => store_join (store_root s) f.1 = p) (store_files s) with
  | Some (_, f) => Return f.2
  | None => Throw SystemError
  end.

(** The platform over a given store. *)
Definition node (s : Store) : Platform := {|
  readdirSync := store_readdir s;
  readFileSync := store_read s;
  path_join := store_join;
  matter := parse_matter;
  Date_parse := parse_iso_date;
  Date_parse_empty := eq_refl;
  toLowerCase := lower;
  toLowerCase_empty := eq_refl;
|}.

Definition nl : string := String "010" "".

(** [key: "text"] and a newline *)
Definition quoted_pair (key text : string) : string :=
  key +:+ ": " +:+ String "034" text +:+ String "034" nl.

(** The store of the specification's scenario. *)
Definition scenario : Store := {|
  store_root := "data";
  store_files :=
    [("a.md", "---" +:+ nl +:+ quoted_pair "title" "A" +:+ quoted_pair "publishedAt" "2025-01-01"
              +:+ "---" +:+ nl +:+ "first" +:+ nl);
     ("b.md", "---" +:+ nl +:+ quoted_pair "title" "B" +:+ quoted_pair "publishedAt" "2025-03-01"
              +:+ "---" +:+ nl +:+ "second" +:+ nl);
     ("c.md", "---" +:+ nl +:+ quoted_pair "title" "C"
              +:+ "---" +:+ nl +:+ "third" +:+ nl)];
|}.


(** A store with one good file and one whose header is not [key: value]. *)
Definition malformed : Store := {|
  store_root := "data";
  store_files :=
    [("a.md", "---" +:+ nl +:+ quoted_pair "title" "A" +:+ "---" +:+ nl);
     ("bad.md", "---" +:+ nl +:+ "no colon here" +:+ nl +:+ "---" +:+ nl)];
|}.


(** A store whose only file sets [slug] in its own header, and a file
    without a header next to it. *)
Definition own_slug : Store := {|
  store_root := "data";
  store_files :=
    [("real.md", "---" +:+ nl +:+ quoted_pair "slug" "forged" +:+ "---" +:+ nl +:+ "text");
     ("plain.md", "# Just a heading" +:+ nl)];
|}.

(** A store in which two posts share a date: [one.md] and [two.md] are
    both dated 2025-01-01 and [new.md] is dated 2025-02-01; [notes.txt] is
    not a content file. *)
Definition same_day : Store := {|
  store_root := "data";
  store_files :=
    [("one.md", "---" +:+ nl +:+ quoted_pair "publishedAt" "2025-01-01" +:+ "---" +:+ nl);
     ("notes.txt", "not a post");
     ("two.md", "---" +:+ nl +:+ quoted_pair "publishedAt" "2025-01-01" +:+ "---" +:+ nl);
     ("new.md", "---" +:+ nl +:+ quoted_pair "publishedAt" "2025-02-01" +:+ "---" +:+ nl)];
|}.

(** ** Vocabulary of the specification *)

(** Newest first: the key never increases from an item to a later one. *)
Definition newest_first {A : Type} (key : A → Z) (a b : A) : Prop := key b ≤ key a.



(** The file can be read and its header parses. *)
Definition loads `{Platform} (rootDir file : string) : Prop :=
  ∃ fileContents parsed,
    readFileSync (path_join rootDir file) = Return fileContents ∧
    matter fileContents = Return parsed.


(** The list has at most [n] items, for a number [n]. *)
Definition at_most {A : Type} (l : list A) (n : number) : Prop :=
  match n with
  | NaN => False
  | Infinity negative => negative = false
  | Finite q => (inject_Z (Z.of_nat (length l)) <= q)%Q
  end.

Definition positive (n : number) : Prop :=
  match n with
  | NaN => False
  | Infinity negative => negative = false
  | Finite q => 0 < Qnum q
  end.

(** [query] occurs in [title] when case is ignored. *)
Definition case_insensitive_substring `{Platform} (query title : string) : Prop :=
  ∃ before after, toLowerCase title = before +:+ toLowerCase query +:+ after.

(** The declared type [title?: string], with [null] tolerated. *)
Definition title_declared (p : PostMetadata) : Prop :=
  match p !! "title" with
  | None | Some VNull | Some (VStr _) => True
  | Some _ => False
  end.

(** The post has a title and the query occurs in it. *)
Definition title_matches `{Platform} (query : string) (p : PostMetadata) : bool :=
  match p !! "title" with
  | Some (VStr title) => includes (toLowerCase title) (toLowerCase query)
  | _ => false
  end.

Definition titled (p : PostMetadata) : bool :=
  match p !! "title" with
  | Some (VStr _) => true
  | _ => false
  end.

(** ** Reading off a settled promise or a completion *)

Definition is_Fulfilled {A : Type} (p : Promise A) : bool :=
  match p with
  | Fulfilled _ => true
  | Rejected _ => false
  end.

(** The list a promise was fulfilled with, empty if it was rejected. *)
Definition settled {A : Type} (p : Promise (list A)) : list A :=
  match p with
  | Fulfilled l => l
  | Rejected _ => []
  end.

Definition is_Return {A : Type} (c : completion A) : bool :=
  match c with
  | Return _ => true
  | Throw _ => false
  end.

(** The list a completion returned, empty if it threw. *)
Definition returned {A : Type} (c : completion (list A)) : list A :=
  match c with
  | Return l => l
  | Throw _ => []
  end.

(** The same platform over a directory that is enumerated differently. *)
Definition with_readdir (P : Platform) (enumerate : string → completion (list string))
    : Platform := {|
  readdirSync := enumerate;
  readFileSync := @readFileSync P;
  path_join := @path_join P;
  matter := @matter P;
  Date_parse := @Date_parse P;
  Date_parse_empty := @Date_parse_empty P;
  toLowerCase := @toLowerCase P;
  toLowerCase_empty := @toLowerCase_empty P;
|}.

(** ** components/Posts.tsx and app/blog/[slug]/page.tsx *)

(** What the components use besides the platform: [formatDate] of
    [lib/utils], whose source is not at hand and which may throw, and the
    texts JavaScript gives a date and a number inside a template literal. *)
Class Presentation : Type := {
  formatDate : value → completion string;
  Date_toString : Z → string;
  Number_toString : number → string;
}.

(** ToString of a property that may be absent, as a template literal
    applies it. *)
Definition ToString `{Presentation} (v : option value) : string :=
  match v with
  | None => "undefined"
  | Some (VStr s) => s
  | Some (VDate t) => Date_toString t
  | Some (VNum n) => Number_toString n
  | Some (VBool b) => if b then "true" else "false"
  | Some VNull => "null"
  end.

(** ToBoolean of a property that may be absent. *)
Definition value_truthy (v : option value) : bool :=
  match v with
  | None | Some VNull => false
  | Some (VStr s) => negb (String.eqb s "")
  | Some (VDate _) => true
  | Some (VNum n) => number_truthy n
  | Some (VBool b) => b
  end.

(** [await p] inside an [async] function. *)
Definition await {A : Type} (p : Promise A) : completion A :=
  match p with
  | Fulfilled a => Return a
  | Rejected e => Throw e
  end.

(** [Array.prototype.map] with a callback that takes the element and its
    index; [i] is the index of the head of [l]. *)
Fixpoint Array_map_indexed {A B : Type} (f : A → nat → completion B) (i : nat) (l : list A)
    : completion (list B) :=
  match l with
  | [] => Return []
  | x :: l' => y ← f x i ; ys ← Array_map_indexed f (S i) l' ; Return (y :: ys)
  end.

(** One [<li>] of [Posts], by the expressions in it that depend on the post
    or its index: the [key], whether the [Separator] is there, the [href] of
    the link, the children [post.title] and [post.summary], and the child
    [post.publishedAt && <p>{formatDate(post.publishedAt)}</p>], which is the
    falsy value itself or the paragraph with the formatted date. *)
Record PostItem : Type := {
  item_key : nat;
  separator : bool;
  href : string;
  heading : option value;
  summary : option value;
  published : option value + string;
}.

Definition Posts_item `{Presentation} (length : nat) (post : PostMetadata) (i : nat)
    : completion PostItem :=
  date ← match post !! "publishedAt" with
         | Some publishedAt =>
             if value_truthy (Some publishedAt)
             then formatted ← formatDate publishedAt ; Return (inr formatted)
             else Return (inl (Some publishedAt))
         | None => Return (inl None)
         end ;
  Return {| item_key := i;
            separator := negb (i =? 0)%nat && negb (i =? length)%nat;
            href := "/blog/" +:+ ToString (post !! "slug");
            heading := post !! "title";
            summary := post !! "summary";
            published := date |}.

(** The element [Posts] returns, [None] for [false] (nothing is rendered):
    the list items of the card. The cursor effect and the hover state, on
    which the element does not depend, are left out. *)
Definition Posts `{Presentation} (posts : list PostMetadata) (limit : option number)
    : completion (option (list PostItem)) :=
  let posts :=
    match limit with
    | Some n => if number_truthy n then slice0 posts n else posts
    | None => posts
    end in
  if (0 <? length posts)%nat
  then items ← Array_map_indexed (Posts_item (length posts)) 0 posts ; Return (Some items)
  else Return None.

(** What the page of a post shows: the not-found view, or the article by
    the expressions in it that depend on the post: the child
    [image && <Image src={image} alt={title || ""} />], which is the falsy
    value itself or the source and the alternative text, the title, the
    formatted date and the source handed to the markdown renderer. *)
Inductive Page : Type :=
  | NotFound
  | Article (image : option value + value * value) (title : option value)
      (date : string) (source : string).

(** [title || ""] *)
Definition or_empty (v : option value) : value :=
  match v with
  | Some x => if value_truthy v then x else VStr ""
  | None => VStr ""
  end.

(** The page component [Post] of [app/blog/[slug]/page.tsx], given the
    [slug] of the awaited [params]. *)
Definition Post_page `{Platform} `{Presentation} (blogDirectory slug : string) : Promise Page :=
  async (
    post ← await (getPostBySlug blogDirectory slug) ;
    match post with
    | None => Return NotFound
    | Some post =>
        let title := metadata post !! "title" in
        let image := metadata post !! "image" in
        let publishedAt := metadata post !! "publishedAt" in
        let picture :=
          match image with
          | Some src => if value_truthy image then inr (src, or_empty title) else inl image
          | None => inl None
          end in
        date ← formatDate (nullish_or_empty publishedAt) ;
        Return (Article picture title date (post_content post))
    end).

(** A presentation for running the components: the date is shown as its
    text, unformatted. *)
Definition verbatim : Presentation := {|
  formatDate := λ v, Return (match v with VStr s => s | _ => "" end);
  Date_toString := λ _, "[date]";
  Number_toString := λ _, "[number]";
|}.

(** Whether a component returned an element, and the items of it. *)
Definition is_rendered {A : Type} (c : completion (option (list A))) : bool :=
  match c with
  | Return (Some _) => true
  | _ => false
  end.

Definition rendered {A : Type} (c : completion (option (list A))) : list A :=
  match c with
  | Return (Some items) => items
  | _ => []
  end.

(** * Properties *)

(** ** Sequencing and promises *)

Lemma bind_Return {A B : Type} (c : completion A) (k : A → completion B) (b : B) :
  c ≫= k = Return b ↔ ∃ a, c = Return a ∧ k a = Return b.
Proof.
  destruct c as [a|e]; simpl; split.
  - eauto.
  - intros (a' & [= <-] & Hk). exact Hk.
  - discriminate.
  - intros (a' & Ha & _). discriminate.
Qed.

Lemma async_Fulfilled {A : Type} (c : completion A) (a : A) :
  async c = Fulfilled a ↔ c = Return a.
Proof. destruct c; simpl; split; congruence. Qed.

Lemma async_Rejected {A : Type} (c : completion A) (e : exn) :
  async c = Rejected e ↔ c = Throw e.
Proof. destruct c; simpl; split; congruence. Qed.

(** [Array_map] returns exactly when the callback returns on every element,
    and then the results are in the order of the elements. *)
Lemma Array_map_Return {A B : Type} (f : A → completion B) (l : list A) (r : list B) :
  Array_map f l = Return r ↔ Forall2 (λ x y, f x = Return y) l r.
Proof.
  revert r. induction l as [|x l IH]; intros r; simpl.
  - split.
    + intros [= <-]. constructor.
    + intros Hr. inversion Hr. reflexivity.
  - rewrite bind_Return. split.
    + intros (y & Hy & Hrest). apply bind_Return in Hrest as (ys & Hys & [= <-]).
      constructor; [exact Hy | by apply IH].
    + intros Hr. inversion Hr as [|? y ? ys Hy Hys]; subst.
      exists y. split; [exact Hy|]. apply IH in Hys. by rewrite Hys.
Qed.


Lemma Array_map_Throw {A B : Type} (f : A → completion B) (l : list A) (x : A) (e : exn) :
  x ∈ l → f x = Throw e → ∃ e', Array_map f l = Throw e'.
Proof.
  induction 1 as [x l|x y l _ IH]; intros Hx; simpl.
  - rewrite Hx. by eexists.
  - destruct (f y); [|by eexists]. destruct (IH Hx) as [e' ->]. by eexists.
Qed.

(** ** Sorting *)

Section sorting.
Context {A : Type} (key : A → Z).

(** The comparators of the form [(a, b) => key(b) - key(a)] *)
Let cmp (a b : A) : Z := key b - key a.

Lemma sort_insert_Permutation (x : A) (l : list A) :
  sort_insert cmp x l ≡ₚ x :: l.
Proof.
  induction l as [|y l IH]; simpl; [done|].
  destruct (cmp x y <=? 0); [done|].
  rewrite IH. apply Permutation_swap.
Qed.

Lemma Array_sort_Permutation (l : list A) : Array_sort cmp l ≡ₚ l.
Proof.
  induction l as [|x l IH]; simpl; [done|].
  by rewrite sort_insert_Permutation, IH.
Qed.

Lemma sort_insert_sorted (x : A) (l : list A) :
  StronglySorted (newest_first key) l → StronglySorted (newest_first key) (sort_insert cmp x l).
Proof.
  induction 1 as [|y l Hl IH Hy]; simpl.
  - repeat constructor.
  - destruct (Z.leb_spec (cmp x y) 0) as [Hle|Hgt]; unfold cmp in *.
    + apply StronglySorted_cons. split; [|by constructor].
      constructor; [unfold newest_first; lia|].
      eapply Forall_impl; [exact Hy|]. unfold newest_first. intros z Hz. lia.
    + apply StronglySorted_cons. split; [|exact IH].
      apply Forall_forall. intros z Hz.
      apply (elem_of_Permutation_proper _ _ _ (sort_insert_Permutation x l)) in Hz.
      apply elem_of_cons in Hz as [->|Hz]; [unfold newest_first; lia|].
      rewrite Forall_forall in Hy. by apply Hy.
Qed.

Lemma Array_sort_sorted (l : list A) : StronglySorted (newest_first key) (Array_sort cmp l).
Proof.
  induction l as [|x l IH]; simpl; [constructor|].
  by apply sort_insert_sorted.
Qed.


(** Two lists with the same items, both newest first, are equal when no
    two items share a key. *)
Lemma newest_first_unique (l1 l2 : list A) :
  (∀ x y, x ∈ l1 → y ∈ l1 → key x = key y → x = y) →
  StronglySorted (newest_first key) l1 → StronglySorted (newest_first key) l2 →
  l1 ≡ₚ l2 → l1 = l2.
Proof.
  intros Hinj H1 H2 Hp.
  apply (StronglySorted_unique_strong (newest_first key)); [|done..].
  intros x y Hx Hy Hxy Hyx. apply Hinj; [done| by rewrite Hp |].
  unfold newest_first in *. lia.
Qed.
End sorting.

Lemma StronglySorted_take {A : Type} (R : A → A → Prop) (n : nat) (l : list A) :
  StronglySorted R l → StronglySorted R (take n l).
Proof.
  intros Hl. rewrite <- (take_drop n l) in Hl.
  by apply StronglySorted_app_1_l in Hl.
Qed.

(** ** Truncation *)

Lemma slice0_prefix {A : Type} (l : list A) (n : number) : slice0 l n `prefix_of` l.
Proof. unfold slice0. eexists. symmetry. apply take_drop. Qed.

Lemma truncate_nonneg (q : Q) : 0 ≤ Qnum q → 0 ≤ truncate q ∧ truncate q * Z.pos (Qden q) ≤ Qnum q.
Proof.
  intros Hq. unfold truncate. split.
  - apply Z.quot_pos; lia.
  - rewrite Z.mul_comm. apply Z.mul_quot_le; lia.
Qed.

Lemma slice0_at_most {A : Type} (l : list A) (n : number) :
  positive n → at_most (slice0 l n) n.
Proof.
  destruct n as [|negative|q]; simpl; [done..|]. intros Hq.
  destruct (truncate_nonneg q) as [H0 Hle]; [lia|].
  unfold slice0. destruct (Z.ltb_spec (truncate q) 0) as [?|_]; [lia|].
  rewrite length_take. unfold Qle; simpl.
  assert (Z.of_nat (Z.to_nat (Z.min (truncate q) (Z.of_nat (length l))) `min` length l)
          ≤ truncate q) as Hlen by lia.
  nia.
Qed.

(** ** The catalog *)

Section catalog.
Context `{Platform}.

Lemma getPostMetadata_Return (rootDir file : string) (m : PostMetadata) :
  getPostMetadata rootDir file = Return m ↔
  ∃ fileContents parsed,
    readFileSync (path_join rootDir file) = Return fileContents ∧
    matter fileContents = Return parsed ∧
    m = <["slug" := VStr (strip_md file)]> (data parsed).
Proof.
  unfold getPostMetadata. rewrite bind_Return. split.
  - intros (raw & Hraw & Hm). apply bind_Return in Hm as (parsed & Hparsed & [= <-]).
    by exists raw, parsed.
  - intros (raw & parsed & Hraw & Hparsed & ->).
    exists raw. split; [done|]. by rewrite Hparsed.
Qed.

Lemma getPostMetadata_loads (rootDir file : string) :
  loads rootDir file ↔ ∃ m, getPostMetadata rootDir file = Return m.
Proof.
  split.
  - intros (raw & parsed & Hraw & Hparsed). eexists.
    apply getPostMetadata_Return. by exists raw, parsed.
  - intros (m & Hm). apply getPostMetadata_Return in Hm as (raw & parsed & ? & ? & _).
    by exists raw, parsed.
Qed.

Lemma getPosts_Fulfilled (rootDir : string) (limit : option number) (posts : list PostMetadata) :
  getPosts rootDir limit = Fulfilled posts ↔
  ∃ files mapped,
    readdirSync rootDir = Return files ∧
    Array_map (getPostMetadata rootDir)
      (List.filter (λ file, endsWith file ".md") files) = Return mapped ∧
    posts = match limit with
            | Some n => if number_truthy n
                        then slice0 (Array_sort by_publishedAt mapped) n
                        else Array_sort by_publishedAt mapped
            | None => Array_sort by_publishedAt mapped
            end.
Proof.
  unfold getPosts. rewrite async_Fulfilled, bind_Return. split.
  - intros (files & Hfiles & Hrest).
    apply bind_Return in Hrest as (mapped & Hmapped & Hposts).
    exists files, mapped. split; [done|]. split; [done|].
    destruct limit as [n|]; [destruct (number_truthy n)|]; by injection Hposts.
  - intros (files & mapped & Hfiles & Hmapped & ->).
    exists files. split; [done|]. rewrite Hmapped. simpl.
    destruct limit as [n|]; [destruct (number_truthy n)|]; done.
Qed.


Lemma by_publishedAt_sorted (mapped : list PostMetadata) :
  StronglySorted (newest_first timestamp) (Array_sort by_publishedAt mapped).
Proof. apply (Array_sort_sorted timestamp). Qed.

Lemma by_publishedAt_Permutation (mapped : list PostMetadata) :
  Array_sort by_publishedAt mapped ≡ₚ mapped.
Proof. apply (Array_sort_Permutation timestamp). Qed.

Lemma getPosts_sorted (rootDir : string) (limit : option number) (posts : list PostMetadata) :
  getPosts rootDir limit = Fulfilled posts →
  StronglySorted (newest_first timestamp) posts.
Proof.
  intros Hposts. apply getPosts_Fulfilled in Hposts as (files & mapped & _ & _ & ->).
  destruct limit as [n|]; [destruct (number_truthy n)|];
    try apply StronglySorted_take; apply by_publishedAt_sorted.
Qed.


End catalog.

Lemma getPostBySlug_cases `{Platform} (rootDir slug : string) :
  getPostBySlug rootDir slug =
  Fulfilled
    match readFileSync (path_join rootDir (slug +:+ ".md")) with
    | Return fileContents =>
        match matter fileContents with
        | Return parsed => Some {| metadata := <["slug" := VStr slug]> (data parsed);
                                   post_content := content parsed |}
        | Throw _ => None
        end
    | Throw _ => None
    end.
Proof.
  unfold getPostBySlug.
  destruct (readFileSync _) as [fileContents|e]; simpl; [|done].
  destruct (matter fileContents); done.
Qed.


(** ** The claims *)




(** C2. [getPostBySlug] never rejects: whatever the root directory and the
    slug, the promise is fulfilled, and it is fulfilled with [null] exactly
    when the file cannot be read or its header does not parse; the two
    failures give the same outcome. *)
Theorem getPostBySlug_not_found `{Platform} (rootDir slug : string) :
  (∃ r, getPostBySlug rootDir slug = Fulfilled r) ∧
  (∀ e, readFileSync (path_join rootDir (slug +:+ ".md")) = Throw e →
     getPostBySlug rootDir slug = Fulfilled None) ∧
  (∀ fileContents e,
     readFileSync (path_join rootDir (slug +:+ ".md")) = Return fileContents →
     matter fileContents = Throw e →
     getPostBySlug rootDir slug = Fulfilled None) ∧
  (getPostBySlug rootDir slug = Fulfilled None ↔ ¬ loads rootDir (slug +:+ ".md")).
Proof.
  rewrite getPostBySlug_cases. unfold loads. split; [by eexists|].
  split; [by intros e ->|]. split; [by intros raw e -> ->|].
  destruct (readFileSync _) as [raw|e].
  - destruct (matter raw) as [parsed|e] eqn:Hparsed.
    + split; [discriminate|]. intros []. by exists raw, parsed.
    + split; [|done]. intros _ (raw' & parsed & [= <-] & Hp). congruence.
  - split; [|done]. intros _ (raw & parsed & [=] & _).
Qed.

Lemma getPostBySlug_not_found_witness :
  @getPostBySlug (node malformed) "data" "missing" = Fulfilled None ∧
  @getPostBySlug (node malformed) "data" "bad" = Fulfilled None.
Proof.
  split.
  - apply (@getPostBySlug_not_found (node malformed) "data" "missing") with (e := SystemError).
    vm_compute. reflexivity.
  - apply (@getPostBySlug_not_found (node malformed) "data" "bad")
      with (e := YAMLException) (fileContents := "---" +:+ nl +:+ "no colon here" +:+ nl +:+ "---" +:+ nl).
    + vm_compute. reflexivity.
    + vm_compute. reflexivity.
Defined.



(** C4, as amended. For every number [n], [getPosts(root, n)] is a prefix of
    [getPosts(root)]; when [n] is positive it has at most [n] items; when
    [n] is [0] or [NaN] (or the limit is omitted) it is the full list. *)
Theorem getPosts_limit_prefix `{Platform} (rootDir : string) (n : number)
    (full : list PostMetadata) :
  getPosts rootDir None = Fulfilled full →
  ∃ posts, getPosts rootDir (Some n) = Fulfilled posts ∧
    posts `prefix_of` full ∧
    (positive n → at_most posts n) ∧
    (number_truthy n = false → posts = full).
Proof.
  intros Hfull. apply getPosts_Fulfilled in Hfull as (files & mapped & Hfiles & Hmapped & ->).
  eexists. split.
  { apply getPosts_Fulfilled. exists files, mapped. split; [done|]. split; [done|]. reflexivity. }
  destruct (number_truthy n) eqn:Hn.
  - split; [apply slice0_prefix|]. split; [apply slice0_at_most|done].
  - split; [done|]. split; [|done].
    destruct n as [|negative|q]; simpl in *; [done..|].
    intros Hq. apply negb_false_iff, Z.eqb_eq in Hn. lia.
Qed.

Lemma getPosts_limit_prefix_witness :
  ∃ full posts,
    @getPosts (node scenario) "data" None = Fulfilled full ∧
    @getPosts (node scenario) "data" (Some (Finite 2)) = Fulfilled posts ∧
    posts `prefix_of` full ∧ length posts = 2%nat.
Proof.
  eexists.
  destruct (@getPosts_limit_prefix (node scenario) "data" (Finite 2) _ eq_refl)
    as (posts & Hposts & Hprefix & _).
  exists posts. split; [reflexivity|]. split; [exact Hposts|]. split; [exact Hprefix|].
  vm_compute in Hposts. injection Hposts as <-. reflexivity.
Defined.

(** C4 as stated fails: with limit [-1] the scenario store yields two
    items, which is not at most [-1]. *)
Lemma negative_limit_exceeds :
  ∃ posts, @getPosts (node scenario) "data" (Some (Finite (-1))) = Fulfilled posts ∧
    length posts = 2%nat ∧ ¬ at_most posts (Finite (-1)).
Proof.
  eexists. split; [vm_compute; reflexivity|]. split; [reflexivity|].
  simpl. unfold Qle. simpl. lia.
Qed.

(** ** Strings *)

Lemma append_cons (c : ascii) (s t : string) : String c s +:+ t = String c (s +:+ t).
Proof. reflexivity. Qed.

Lemma append_empty (t : string) : EmptyString +:+ t = t.
Proof. reflexivity. Qed.

Lemma prefix_append (t s : string) :
  String.prefix t s = true ↔ ∃ rest, s = t +:+ rest.
Proof.
  revert s. induction t as [|c t IH]; intros s; simpl.
  - destruct s; split; eauto.
  - setoid_rewrite append_cons. destruct s as [|d s]; simpl.
    + split; [discriminate|]. intros [rest [=]].
    + destruct (ascii_dec c d) as [->|Hcd].
      * rewrite IH. split; intros [rest Hrest]; exists rest; congruence.
      * split; [discriminate|]. intros [rest [=]]. congruence.
Qed.

Lemma prefix_empty (s : string) : String.prefix EmptyString s = true.
Proof. by destruct s. Qed.

(** [includes] finds exactly the occurrences of the search string. *)
Lemma includes_spec (s search : string) :
  includes s search = true ↔ ∃ before after, s = before +:+ search +:+ after.
Proof.
  induction s as [|c s IH].
  - change (includes EmptyString search) with (String.prefix search EmptyString || false).
    rewrite orb_false_r, prefix_append. split.
    + intros [rest Hrest]. by exists EmptyString, rest.
    + intros (before & after & Hs). destruct before; [by exists after|discriminate].
  - change (includes (String c s) search)
      with (String.prefix search (String c s) || includes s search).
    rewrite orb_true_iff, IH, prefix_append. split.
    + intros [[rest Hp]|(before & after & ->)].
      * by exists EmptyString, rest.
      * by exists (String c before), after.
    + intros (before & after & Hs). destruct before as [|d before].
      * left. by exists after.
      * right. rewrite append_cons in Hs. injection Hs as -> ->. by exists before, after.
Qed.

Lemma includes_empty (s : string) : includes s EmptyString = true.
Proof. by destruct s. Qed.

Lemma substring_all (s : string) : String.substring 0 (String.length s) s = s.
Proof. induction s as [|c s IH]; simpl; [done|]. by rewrite IH. Qed.

Lemma substring_split (s : string) (m : nat) :
  (m ≤ String.length s)%nat →
  String.substring 0 m s +:+ String.substring m (String.length s - m) s = s.
Proof.
  revert m. induction s as [|c s IH]; intros m Hm; simpl in *.
  - by destruct m.
  - destruct m as [|m]; simpl.
    + rewrite append_empty. f_equal. apply substring_all.
    + rewrite append_cons. f_equal. apply IH. lia.
Qed.

(** On a name that ends in [.md], [strip_md] removes exactly that suffix. *)
Lemma strip_md_append (file : string) :
  endsWith file ".md" = true → strip_md file +:+ ".md" = file.
Proof.
  intros Hmd. unfold strip_md. rewrite Hmd.
  unfold endsWith in Hmd. apply andb_true_iff in Hmd as [Hlen Heq].
  apply Nat.leb_le in Hlen. apply String.eqb_eq in Heq.
  change (String.length ".md") with 3%nat in *.
  rewrite <- Heq.
  replace 3%nat with (String.length file - (String.length file - 3))%nat at 3 by lia.
  apply substring_split. lia.
Qed.

(** ** The search filter *)

Section search.
Context `{Platform}.

Lemma title_includes_declared (query : string) (p : PostMetadata) :
  title_declared p → ∃ r, title_includes query p = Return r ∧ truthy r = title_matches query p.
Proof.
  unfold title_declared, title_includes, title_matches.
  destruct (p !! "title") as [[title| | | |]|]; intros Hp; try done; by eexists.
Qed.

Lemma filtered_declared (posts : list PostMetadata) (query : string) :
  Forall title_declared posts →
  filtered posts query = Return (List.filter (title_matches query) posts).
Proof.
  unfold filtered. induction 1 as [|p posts Hp _ IH]; simpl; [done|].
  destruct (title_includes_declared query p Hp) as (r & -> & Hr). simpl.
  rewrite IH. simpl. by rewrite Hr.
Qed.

Lemma title_includes_Return (query : string) (p : PostMetadata) (r : option bool) :
  title_includes query p = Return r → truthy r = title_matches query p.
Proof.
  unfold title_includes, title_matches.
  destruct (p !! "title") as [[title| | | |]|]; intros [= <-]; done.
Qed.

(** Whenever the filter returns, it returns the posts that match. *)
Lemma filtered_Return (posts kept : list PostMetadata) (query : string) :
  filtered posts query = Return kept → kept = List.filter (title_matches query) posts.
Proof.
  unfold filtered. revert kept. induction posts as [|p posts IH]; intros kept; simpl.
  - by intros [= <-].
  - intros Hkept. apply bind_Return in Hkept as (r & Hr & Hkept).
    apply bind_Return in Hkept as (ys & Hys & [= <-]).
    rewrite <- (title_includes_Return _ _ _ Hr), <- (IH _ Hys). done.
Qed.

Lemma title_matches_spec (query : string) (p : PostMetadata) :
  title_matches query p = true ↔
  ∃ title, p !! "title" = Some (VStr title) ∧ case_insensitive_substring query title.
Proof.
  unfold title_matches, case_insensitive_substring.
  destruct (p !! "title") as [[title| | | |]|].
  2-6: split; [discriminate|]; intros (title' & [=] & _).
  rewrite includes_spec. split.
  - intros Hin. by exists title.
  - by intros (title' & [= <-] & Hin).
Qed.

Lemma title_matches_empty (p : PostMetadata) :
  title_matches EmptyString p = titled p.
Proof.
  unfold title_matches, titled.
  destruct (p !! "title") as [[title| | | |]|]; try done.
  rewrite toLowerCase_empty. apply includes_empty.
Qed.
End search.

Lemma filter_sublist {A : Type} (f : A → bool) (l : list A) : List.filter f l `sublist_of` l.
Proof.
  induction l as [|x l IH]; simpl; [constructor|].
  destruct (f x); by constructor.
Qed.

(** Every item of the catalog is the metadata of one [.md] entry of the
    directory. *)
Lemma getPosts_elements `{Platform} (rootDir : string) (limit : option number)
    (posts : list PostMetadata) (p : PostMetadata) :
  getPosts rootDir limit = Fulfilled posts → p ∈ posts →
  ∃ files file, readdirSync rootDir = Return files ∧ file ∈ files ∧
    endsWith file ".md" = true ∧ getPostMetadata rootDir file = Return p.
Proof.
  intros Hposts Hp.
  apply getPosts_Fulfilled in Hposts as (files & mapped & Hfiles & Hmapped & ->).
  assert (p ∈ mapped) as Hin.
  { rewrite <- (by_publishedAt_Permutation mapped).
    destruct limit as [n|]; [destruct (number_truthy n)|]; try done.
    eapply elem_of_prefix; [done|apply slice0_prefix]. }
  apply Array_map_Return in Hmapped.
  apply list_elem_of_lookup in Hin as [i Hi].
  destruct (Forall2_lookup_r _ _ _ _ _ Hmapped Hi) as (file & Hfile & Hm).
  apply list_elem_of_lookup_2, list_elem_of_In, filter_In in Hfile as [Hfile Hmd].
  exists files, file. by rewrite list_elem_of_In.
Qed.

(** C5. When the file of a slug reads and its header parses,
    [getPostBySlug] returns the parsed header with the [slug] field put in:
    the metadata keys are those of the header and [slug], every other key
    has the header's value, and the content is the parsed body. *)
Theorem getPostBySlug_metadata `{Platform} (rootDir slug fileContents : string)
    (parsed : GrayMatterFile) :
  readFileSync (path_join rootDir (slug +:+ ".md")) = Return fileContents →
  matter fileContents = Return parsed →
  ∃ post, getPostBySlug rootDir slug = Fulfilled (Some post) ∧
    metadata post = <["slug" := VStr slug]> (data parsed) ∧
    dom (metadata post) = {["slug"]} ∪ dom (data parsed) ∧
    (∀ k, k ≠ "slug" → metadata post !! k = data parsed !! k) ∧
    post_content post = content parsed.
Proof.
  intros Hread Hparsed. rewrite getPostBySlug_cases, Hread, Hparsed.
  eexists. split; [done|]. simpl. split; [done|]. split; [|split; [|done]].
  - apply dom_insert_L.
  - intros k Hk. by apply lookup_insert_ne.
Qed.

Lemma getPostBySlug_metadata_witness :
  ∃ post, @getPostBySlug (node scenario) "data" "a" = Fulfilled (Some post) ∧
    map_to_list (metadata post) =
      [("slug", VStr "a"); ("title", VStr "A"); ("publishedAt", VStr "2025-01-01")].
Proof.
  destruct (@getPostBySlug_metadata (node scenario) "data" "a"
              (snd (default (EmptyString, EmptyString) (store_files scenario !! 0%nat)))
              {| data := <["publishedAt" := VStr "2025-01-01"]> (<["title" := VStr "A"]> ∅);
                 content := "first" +:+ nl |})
    as (post & Hpost & Hmeta & _).
  - vm_compute. reflexivity.
  - vm_compute. reflexivity.
  - exists post. split; [exact Hpost|]. rewrite Hmeta. vm_compute. reflexivity.
Defined.

(** C6. With the front-matter parser modelled from the specification, a
    file that does not begin with the three-dash marker parses, without
    failing, to an empty mapping and a body that is the whole file; and
    [getPostBySlug] on it is a found post whose metadata holds only the
    injected [slug] and whose content is the file's text. *)
Theorem headerless_file `{Platform} (rootDir slug input : string) :
  (∀ s, matter s = parse_matter s) →
  readFileSync (path_join rootDir (slug +:+ ".md")) = Return input →
  String.prefix "---" input = false →
  parse_matter input = Return {| data := ∅; content := input |} ∧
  getPostBySlug rootDir slug =
    Fulfilled (Some {| metadata := {["slug" := VStr slug]}; post_content := input |}).
Proof.
  intros Hmatter Hread Hmarker.
  assert (parse_matter input = Return {| data := ∅; content := input |}) as Hparse.
  { unfold parse_matter. by rewrite Hmarker. }
  split; [done|].
  rewrite getPostBySlug_cases, Hread, Hmatter, Hparse. simpl.
  by rewrite insert_empty.
Qed.

Lemma headerless_file_witness :
  @getPostBySlug (node own_slug) "data" "plain" =
    Fulfilled (Some {| metadata := {["slug" := VStr "plain"]};
                       post_content := "# Just a heading" +:+ nl |}).
Proof.
  apply (@headerless_file (node own_slug) "data" "plain" ("# Just a heading" +:+ nl)).
  - intros s. reflexivity.
  - vm_compute. reflexivity.
  - vm_compute. reflexivity.
Defined.

(** When the callback returns on every element, [Array_map] returns the
    list of its results. *)
Lemma Array_map_fmap {A B : Type} (f : A → completion B) (g : A → B) (l : list A) :
  Forall (λ x, f x = Return (g x)) l → Array_map f l = Return (g <$> l).
Proof.
  induction 1 as [|x l Hx _ IH]; simpl; [done|]. by rewrite Hx, IH.
Qed.

(** C7. In a store that holds exactly [a.md], dated 2025-01-01, [b.md],
    dated 2025-03-01, and [c.md], which has no [publishedAt], in whatever
    order the directory lists them, [getPosts(root)] returns the metadata
    of [b], [a], [c] in this order and [getPosts(root, 2)] returns that of
    [b] and [a]. *)
Theorem scenario_order `{Platform} (rootDir : string) (files : list string)
    (a b c : PostMetadata) (ta tb : Z) :
  readdirSync rootDir = Return files →
  files ≡ₚ ["a.md"; "b.md"; "c.md"] →
  getPostMetadata rootDir "a.md" = Return a →
  getPostMetadata rootDir "b.md" = Return b →
  getPostMetadata rootDir "c.md" = Return c →
  a !! "publishedAt" = Some (VStr "2025-01-01") →
  b !! "publishedAt" = Some (VStr "2025-03-01") →
  c !! "publishedAt" = None →
  Date_parse "2025-01-01" = Some ta →
  Date_parse "2025-03-01" = Some tb →
  0 < ta < tb →
  getPosts rootDir None = Fulfilled [b; a; c] ∧
  getPosts rootDir (Some (Finite 2)) = Fulfilled [b; a].
Proof.
  intros Hfiles Hperm Ha Hb Hc Hat Hbt Hct Hta Htb Hlt.
  set (g := λ file : string,
         if String.eqb file "a.md" then a else if String.eqb file "b.md" then b else c).
  assert (timestamp a = ta ∧ timestamp b = tb ∧ timestamp c = 0) as (Hka & Hkb & Hkc).
  { unfold timestamp. rewrite Hat, Hbt, Hct. simpl. rewrite Hta, Htb, Date_parse_empty. simpl.
    destruct (Z.eqb_spec ta 0), (Z.eqb_spec tb 0); lia. }
  assert (List.filter (λ file, endsWith file ".md") files = files) as Hmd.
  { apply forallb_filter_id, forallb_forall. intros file Hin.
    apply list_elem_of_In in Hin. rewrite Hperm in Hin.
    repeat (apply elem_of_cons in Hin as [->|Hin]; [reflexivity|]).
    by apply elem_of_nil in Hin. }
  assert (Array_map (getPostMetadata rootDir) files = Return (g <$> files)) as Hmapped.
  { apply Array_map_fmap, Forall_forall. intros file Hin. rewrite Hperm in Hin.
    repeat (apply elem_of_cons in Hin as [->|Hin]; [done|]).
    by apply elem_of_nil in Hin. }
  assert (Array_sort by_publishedAt (g <$> files) = [b; a; c]) as Hsorted.
  { symmetry. apply (newest_first_unique timestamp).
    - intros x y Hx Hy.
      repeat (apply elem_of_cons in Hx as [->|Hx]); [| | |by apply elem_of_nil in Hx];
        (repeat (apply elem_of_cons in Hy as [->|Hy]); [| | |by apply elem_of_nil in Hy]);
        rewrite ?Hka, ?Hkb, ?Hkc; (done || lia).
    - repeat constructor; unfold newest_first; lia.
    - apply by_publishedAt_sorted.
    - rewrite by_publishedAt_Permutation, Hperm.
      change (g <$> ["a.md"; "b.md"; "c.md"]) with [a; b; c].
      apply Permutation_swap. }
  split.
  - apply getPosts_Fulfilled. exists files, (g <$> files).
    rewrite Hmd. by rewrite Hsorted.
  - apply getPosts_Fulfilled. exists files, (g <$> files).
    rewrite Hmd. by rewrite Hsorted.
Qed.

Lemma scenario_order_witness :
  ∃ a b c,
    a !! "slug" = Some (VStr "a") ∧ b !! "slug" = Some (VStr "b") ∧
    c !! "slug" = Some (VStr "c") ∧
    @getPosts (node scenario) "data" None = Fulfilled [b; a; c] ∧
    @getPosts (node scenario) "data" (Some (Finite 2)) = Fulfilled [b; a].
Proof.
  eexists _, _, _.
  split; [|split; [|split]]; cycle 3.
  - eapply (@scenario_order (node scenario) "data" ["a.md"; "b.md"; "c.md"]
              _ _ _ 1735689600000 1740787200000).
    + reflexivity.
    + reflexivity.
    + vm_compute. reflexivity.
    + vm_compute. reflexivity.
    + vm_compute. reflexivity.
    + vm_compute. reflexivity.
    + vm_compute. reflexivity.
    + vm_compute. reflexivity.
    + vm_compute. reflexivity.
    + vm_compute. reflexivity.
    + lia.
  - vm_compute. reflexivity.
  - vm_compute. reflexivity.
  - vm_compute. reflexivity.
Defined.

(** C8. The search filter returns on every list of posts typed as
    declared, and what it returns is the posts whose title contains the
    query as a substring when case is ignored, in their original order: the
    result is the input filtered by that test, and the test reads nothing
    of a post but its [title]. *)
Theorem search_filter `{Platform} (posts : list PostMetadata) (query : string) :
  (Forall title_declared posts → ∃ kept, filtered posts query = Return kept) ∧
  (∀ kept, filtered posts query = Return kept →
     kept = List.filter (title_matches query) posts ∧
     kept `sublist_of` posts ∧
     ∀ p, p ∈ kept ↔
       p ∈ posts ∧
       ∃ title, p !! "title" = Some (VStr title) ∧ case_insensitive_substring query title) ∧
  (∀ p p', p !! "title" = p' !! "title" →
     title_includes query p = title_includes query p' ∧
     title_matches query p = title_matches query p').
Proof.
  split; [|split].
  - intros Hposts. eexists. by apply filtered_declared.
  - intros kept Hkept. apply filtered_Return in Hkept as ->.
    split; [done|]. split; [apply filter_sublist|].
    intros p. rewrite !list_elem_of_In, filter_In, title_matches_spec. done.
  - intros p p' Htitle. unfold title_includes, title_matches. by rewrite Htitle.
Qed.

Lemma search_filter_witness :
  ∃ a b,
    a !! "title" = Some (VStr "Spring Concepts") ∧
    b !! "title" = Some (VStr "Basic Git Workflow") ∧
    @filtered (node scenario) [a; b; a] "sPRING" = Return [a; a].
Proof.
  exists (<["title" := VStr "Spring Concepts"]> (<["slug" := VStr "Spring"]> ∅)),
         (<["title" := VStr "Basic Git Workflow"]> (<["slug" := VStr "git_gist"]> ∅)).
  split; [reflexivity|]. split; [reflexivity|].
  destruct (@search_filter (node scenario)
              [<["title" := VStr "Spring Concepts"]> (<["slug" := VStr "Spring"]> ∅);
               <["title" := VStr "Basic Git Workflow"]> (<["slug" := VStr "git_gist"]> ∅);
               <["title" := VStr "Spring Concepts"]> (<["slug" := VStr "Spring"]> ∅)]
              "sPRING") as (Hreturns & Hkept & _).
  destruct Hreturns as [kept Hreturns]; [repeat constructor|].
  rewrite Hreturns. destruct (Hkept kept Hreturns) as (-> & _). reflexivity.
Defined.

(** C9. The [slug] of the post that [getPostBySlug] finds is the requested
    slug, and the [slug] of every item [getPosts] returns is the name of an
    [.md] entry of the directory without that suffix, whatever [slug] the
    header of the file may set. *)
Theorem slug_injected `{Platform} (rootDir : string) :
  (∀ slug post, getPostBySlug rootDir slug = Fulfilled (Some post) →
     metadata post !! "slug" = Some (VStr slug)) ∧
  (∀ limit posts p, getPosts rootDir limit = Fulfilled posts → p ∈ posts →
     ∃ files file, readdirSync rootDir = Return files ∧ file ∈ files ∧
       file = strip_md file +:+ ".md" ∧
       getPostMetadata rootDir file = Return p ∧
       p !! "slug" = Some (VStr (strip_md file))).
Proof.
  split.
  - intros slug post. rewrite getPostBySlug_cases.
    destruct (readFileSync _) as [raw|]; [|discriminate].
    destruct (matter raw) as [parsed|]; [|discriminate].
    intros [= <-]. apply lookup_insert_eq.
  - intros limit posts p Hposts Hp.
    destruct (getPosts_elements _ _ _ _ Hposts Hp) as (files & file & Hfiles & Hfile & Hmd & Hm).
    exists files, file. split; [done|]. split; [done|].
    split; [symmetry; by apply strip_md_append|]. split; [done|].
    apply getPostMetadata_Return in Hm as (raw & parsed & _ & _ & ->).
    apply lookup_insert_eq.
Qed.

Lemma slug_injected_witness :
  (∃ fileContents parsed,
     @readFileSync (node own_slug) (@path_join (node own_slug) "data" "real.md")
       = Return fileContents ∧
     @matter (node own_slug) fileContents = Return parsed ∧
     data parsed !! "slug" = Some (VStr "forged")) ∧
  (∃ post, @getPostBySlug (node own_slug) "data" "real" = Fulfilled (Some post) ∧
     metadata post !! "slug" = Some (VStr "real")) ∧
  (∃ p q, @getPosts (node own_slug) "data" None = Fulfilled [p; q] ∧
     p !! "slug" = Some (VStr "real") ∧ q !! "slug" = Some (VStr "plain")).
Proof.
  split; [|split].
  - eexists _, _. split; [vm_compute; reflexivity|]. split; vm_compute; reflexivity.
  - eexists. split; [vm_compute; reflexivity|].
    apply (proj1 (@slug_injected (node own_slug) "data")). vm_compute. reflexivity.
  - eexists _, _. split; [vm_compute; reflexivity|]. split; vm_compute; reflexivity.
Defined.

(** C10. Whenever the search filter returns, as it does on posts typed as
    declared, a post without a [title] is not in its output, whatever the
    query; with the empty query the output is the posts that have a title,
    so a post whose title is the empty string is kept while a post without
    a title is not. *)
Theorem untitled_excluded `{Platform} (posts : list PostMetadata) (query : string) :
  (Forall title_declared posts → ∃ kept, filtered posts query = Return kept) ∧
  (∀ kept, filtered posts query = Return kept →
     (∀ p, p !! "title" = None → p ∉ kept) ∧
     (query = EmptyString → kept = List.filter titled posts)).
Proof.
  split.
  - intros Hposts. eexists. by apply filtered_declared.
  - intros kept Hkept. apply filtered_Return in Hkept as ->. split.
    + intros p Hp Hin. apply list_elem_of_In, filter_In in Hin as [_ Hmatch].
      unfold title_matches in Hmatch. by rewrite Hp in Hmatch.
    + intros ->. apply filter_ext. intros p. apply title_matches_empty.
Qed.

Lemma untitled_excluded_witness :
  ∃ untitled blank,
    untitled !! "title" = None ∧ blank !! "title" = Some (VStr EmptyString) ∧
    @filtered (node scenario) [untitled; blank] EmptyString = Return [blank].
Proof.
  exists (<["slug" := VStr "draft"]> ∅),
         (<["title" := VStr EmptyString]> (<["slug" := VStr "blank"]> ∅)).
  split; [reflexivity|]. split; [reflexivity|].
  destruct (@untitled_excluded (node scenario)
              [<["slug" := VStr "draft"]> ∅;
               <["title" := VStr EmptyString]> (<["slug" := VStr "blank"]> ∅)]
              EmptyString) as (Hreturns & Hkept).
  destruct Hreturns as [kept Hreturns]; [repeat constructor|].
  rewrite Hreturns. destruct (Hkept kept Hreturns) as (_ & Hempty).
  rewrite (Hempty eq_refl). reflexivity.
Defined.

(** The declared type matters: a title that is a timestamp (an unquoted
    date in the header) has no [toLowerCase], and the filter throws. *)
Example filtered_throws_on_date_title :
  @filtered (node scenario) [<["title" := VDate 0]> ∅] "x" = Throw TypeError.
Proof. reflexivity. Qed.


(** * Further properties of the catalog *)

Lemma settled_Fulfilled {A : Type} (p : Promise (list A)) :
  is_Fulfilled p = true → p = Fulfilled (settled p).
Proof. by destruct p. Qed.

Lemma is_Return_loads `{Platform} (rootDir file : string) :
  is_Return (getPostMetadata rootDir file) = true → loads rootDir file.
Proof.
  intros Hm. apply getPostMetadata_loads.
  destruct (getPostMetadata rootDir file) as [m|]; [by exists m|done].
Qed.

(** ** Stability of the sort *)

Section stability.
Context {A : Type} (key : A → Z).

Let cmp (a b : A) : Z := key b - key a.

Lemma sort_insert_stable (k : Z) (x : A) (l : list A) :
  List.filter (λ y, key y =? k) (sort_insert cmp x l) =
  List.filter (λ y, key y =? k) (x :: l).
Proof.
  induction l as [|y l IH]; [done|].
  cbn [sort_insert]. destruct (Z.leb_spec (cmp x y) 0) as [Hle|Hgt]; [done|].
  unfold cmp in Hgt. cbn [List.filter] in *. rewrite IH.
  destruct (Z.eqb_spec (key x) k) as [Hx|Hx], (Z.eqb_spec (key y) k) as [Hy|Hy];
    (done || lia).
Qed.

(** Items with the same key leave the sort in the order they entered it. *)
Lemma Array_sort_stable (k : Z) (l : list A) :
  List.filter (λ y, key y =? k) (Array_sort cmp l) = List.filter (λ y, key y =? k) l.
Proof.
  induction l as [|x l IH]; [done|].
  cbn [Array_sort]. rewrite sort_insert_stable. cbn [List.filter]. by rewrite IH.
Qed.

(** The sorted list is determined by the items alone when no two of them
    share a key. *)
Lemma Array_sort_order_free (l1 l2 : list A) :
  (∀ x y, x ∈ l1 → y ∈ l1 → key x = key y → x = y) →
  l1 ≡ₚ l2 → Array_sort cmp l1 = Array_sort cmp l2.
Proof.
  intros Hinj Hperm. unfold cmp. apply (newest_first_unique key).
  - intros x y Hx Hy. apply Hinj; by rewrite <- (Array_sort_Permutation key l1).
  - apply Array_sort_sorted.
  - apply Array_sort_sorted.
  - by rewrite !Array_sort_Permutation.
Qed.
End stability.

Lemma StronglySorted_filter {A : Type} (R : A → A → Prop) (f : A → bool) (l : list A) :
  StronglySorted R l → StronglySorted R (List.filter f l).
Proof.
  induction 1 as [|x l Hl IH Hx]; simpl; [constructor|].
  destruct (f x); [|done]. constructor; [done|].
  apply Forall_forall. intros y Hy. apply list_elem_of_In, filter_In in Hy as [Hy _].
  rewrite Forall_forall in Hx. by apply Hx, list_elem_of_In.
Qed.

(** ** File names and slugs *)

Lemma substring_drop (s t : string) :
  String.substring (String.length s) (String.length t) (s +:+ t) = t.
Proof.
  induction s as [|c s IH]; [apply substring_all|]. by rewrite append_cons.
Qed.

Lemma substring_keep (s t : string) :
  String.substring 0 (String.length s) (s +:+ t) = s.
Proof.
  induction s as [|c s IH]; [by destruct t|].
  rewrite append_cons. simpl. by rewrite IH.
Qed.

Lemma length_append (s t : string) :
  String.length (s +:+ t) = (String.length s + String.length t)%nat.
Proof. induction s as [|c s IH]; [done|]. rewrite append_cons. simpl. by rewrite IH. Qed.

Lemma endsWith_append (s t : string) : endsWith (s +:+ t) t = true.
Proof.
  unfold endsWith. rewrite length_append.
  apply andb_true_iff. split; [apply Nat.leb_le; lia|].
  replace (String.length s + String.length t - String.length t)%nat
    with (String.length s) by lia.
  rewrite substring_drop. apply String.eqb_refl.
Qed.

Lemma strip_md_of_append (slug : string) : strip_md (slug +:+ ".md") = slug.
Proof.
  unfold strip_md. rewrite endsWith_append, length_append.
  change (String.length ".md") with 3%nat.
  replace (String.length slug + 3 - 3)%nat with (String.length slug) by lia.
  apply substring_keep.
Qed.

Lemma strip_md_inj (file file' : string) :
  endsWith file ".md" = true → endsWith file' ".md" = true →
  strip_md file = strip_md file' → file = file'.
Proof.
  intros Hmd Hmd' Heq.
  rewrite <- (strip_md_append file Hmd), <- (strip_md_append file' Hmd'). by rewrite Heq.
Qed.

(** ** The catalog and its directory *)

Section listing.
Context `{Platform}.

(** What [getPosts] sorts: the metadata of the [.md] entries, in the order
    of the directory. *)
Lemma getPosts_mapped (rootDir : string) (limit : option number)
    (files : list string) (posts : list PostMetadata) :
  readdirSync rootDir = Return files →
  getPosts rootDir limit = Fulfilled posts →
  ∃ mapped,
    Forall2 (λ file m, getPostMetadata rootDir file = Return m)
      (List.filter (λ file, endsWith file ".md") files) mapped ∧
    posts `prefix_of` Array_sort by_publishedAt mapped ∧
    (limit = None → posts = Array_sort by_publishedAt mapped).
Proof.
  intros Hfiles Hposts.
  apply getPosts_Fulfilled in Hposts as (files' & mapped & Hfiles' & Hmapped & ->).
  assert (files' = files) as -> by congruence.
  exists mapped. split; [by apply Array_map_Return|]. split.
  - destruct limit as [n|]; [destruct (number_truthy n)|]; try done. apply slice0_prefix.
  - by intros ->.
Qed.

Lemma mapped_slugs (rootDir : string) (files : list string) (mapped : list PostMetadata) :
  Forall2 (λ file m, getPostMetadata rootDir file = Return m) files mapped →
  (λ m : PostMetadata, m !! "slug") <$> mapped = (λ file, Some (VStr (strip_md file))) <$> files.
Proof.
  induction 1 as [|file m files mapped Hm _ IH]; [done|].
  rewrite !fmap_cons, IH. f_equal.
  apply getPostMetadata_Return in Hm as (raw & parsed & _ & _ & ->).
  apply lookup_insert_eq.
Qed.
End listing.

(** X1. Posts whose timestamps are equal are listed in the order in which
    the directory enumerates their files: for every timestamp, the posts of
    the catalog that carry it are those of the directory, in directory
    order. *)
Theorem getPosts_ties_keep_directory_order `{Platform} (rootDir : string)
    (files : list string) (posts : list PostMetadata) :
  readdirSync rootDir = Return files →
  getPosts rootDir None = Fulfilled posts →
  ∃ mapped,
    Forall2 (λ file m, getPostMetadata rootDir file = Return m)
      (List.filter (λ file, endsWith file ".md") files) mapped ∧
    ∀ t, List.filter (λ p, timestamp p =? t) posts =
         List.filter (λ p, timestamp p =? t) mapped.
Proof.
  intros Hfiles Hposts.
  destruct (getPosts_mapped _ _ _ _ Hfiles Hposts) as (mapped & Hmapped & _ & Hall).
  exists mapped. split; [done|]. intros t. rewrite (Hall eq_refl).
  apply (Array_sort_stable timestamp).
Qed.

Lemma getPosts_ties_keep_directory_order_witness :
  ∃ posts mapped,
    @getPosts (node same_day) "data" None = Fulfilled posts ∧
    (λ p : PostMetadata, p !! "slug") <$> posts
      = [Some (VStr "new"); Some (VStr "one"); Some (VStr "two")] ∧
    ∀ t, List.filter (λ p, @timestamp (node same_day) p =? t) posts =
         List.filter (λ p, @timestamp (node same_day) p =? t) mapped.
Proof.
  eexists.
  destruct (@getPosts_ties_keep_directory_order (node same_day) "data"
              ["one.md"; "notes.txt"; "two.md"; "new.md"] _ eq_refl eq_refl)
    as (mapped & _ & Hties).
  exists mapped. split; [reflexivity|]. split; [vm_compute; reflexivity|exact Hties].
Defined.

(** X2. Without a limit the catalog has exactly one item for each [.md]
    entry of the directory, entries of other kinds being ignored: it is a
    rearrangement of the metadata of those entries. *)
Theorem getPosts_one_item_per_md_file `{Platform} (rootDir : string)
    (files : list string) (posts : list PostMetadata) :
  readdirSync rootDir = Return files →
  getPosts rootDir None = Fulfilled posts →
  length posts = length (List.filter (λ file, endsWith file ".md") files) ∧
  ∃ mapped,
    Forall2 (λ file m, getPostMetadata rootDir file = Return m)
      (List.filter (λ file, endsWith file ".md") files) mapped ∧
    posts ≡ₚ mapped.
Proof.
  intros Hfiles Hposts.
  destruct (getPosts_mapped _ _ _ _ Hfiles Hposts) as (mapped & Hmapped & _ & Hall).
  rewrite (Hall eq_refl).
  split; [|exists mapped; split; [done|apply by_publishedAt_Permutation]].
  rewrite by_publishedAt_Permutation. symmetry. by eapply Forall2_length.
Qed.

Lemma getPosts_one_item_per_md_file_witness :
  ∃ posts, @getPosts (node same_day) "data" None = Fulfilled posts ∧
    length (store_files same_day) = 4%nat ∧ length posts = 3%nat.
Proof.
  eexists. split; [reflexivity|]. split; [reflexivity|].
  exact (proj1 (@getPosts_one_item_per_md_file (node same_day) "data"
                  ["one.md"; "notes.txt"; "two.md"; "new.md"] _ eq_refl eq_refl)).
Defined.

(** X3. Every item of the catalog can be looked up by its own slug:
    [getPostBySlug] on the [slug] of an item that [getPosts] returned finds
    a post, and the metadata of that post is the item. *)
Theorem listed_post_is_found `{Platform} (rootDir : string) (limit : option number)
    (posts : list PostMetadata) (p : PostMetadata) :
  getPosts rootDir limit = Fulfilled posts → p ∈ posts →
  ∃ slug post,
    p !! "slug" = Some (VStr slug) ∧
    getPostBySlug rootDir slug = Fulfilled (Some post) ∧
    metadata post = p.
Proof.
  intros Hposts Hp.
  destruct (getPosts_elements _ _ _ _ Hposts Hp) as (files & file & _ & _ & Hmd & Hm).
  apply getPostMetadata_Return in Hm as (raw & parsed & Hraw & Hparsed & ->).
  exists (strip_md file). eexists. split; [apply lookup_insert_eq|].
  rewrite getPostBySlug_cases, (strip_md_append file Hmd), Hraw, Hparsed. done.
Qed.

Lemma listed_post_is_found_witness :
  ∃ b post,
    @getPosts (node scenario) "data" (Some (Finite 1)) = Fulfilled [b] ∧
    @getPostBySlug (node scenario) "data" "b" = Fulfilled (Some post) ∧
    metadata post = b.
Proof.
  eexists.
  destruct (@listed_post_is_found (node scenario) "data" (Some (Finite 1)) _ _ eq_refl
              (list_elem_of_here _ _)) as (slug & post & Hslug & Hpost & Hmeta).
  exists post. split; [reflexivity|]. split; [|exact Hmeta].
  vm_compute in Hslug. injection Hslug as <-. exact Hpost.
Defined.

(** X4. When the directory lists no name twice, no two items of the catalog
    have the same slug. *)
Theorem getPosts_slugs_distinct `{Platform} (rootDir : string) (limit : option number)
    (files : list string) (posts : list PostMetadata) :
  readdirSync rootDir = Return files → NoDup files →
  getPosts rootDir limit = Fulfilled posts →
  NoDup ((λ p : PostMetadata, p !! "slug") <$> posts).
Proof.
  intros Hfiles Hnodup Hposts.
  destruct (getPosts_mapped _ _ _ _ Hfiles Hposts) as (mapped & Hmapped & [rest Hprefix] & _).
  assert (NoDup ((λ p : PostMetadata, p !! "slug") <$> Array_sort by_publishedAt mapped)) as Hall.
  { rewrite by_publishedAt_Permutation, (mapped_slugs _ _ _ Hmapped).
    apply NoDup_fmap_2_strong;
      [|by apply NoDup_ListNoDup, List.NoDup_filter, NoDup_ListNoDup].
    intros file file' Hin Hin' [= Heq].
    apply list_elem_of_In, filter_In in Hin as [_ Hmd], Hin' as [_ Hmd'].
    by apply strip_md_inj. }
  rewrite Hprefix, fmap_app in Hall. by apply NoDup_app in Hall as [? _].
Qed.

Lemma getPosts_slugs_distinct_witness :
  NoDup ((λ p : PostMetadata, p !! "slug") <$>
    settled (@getPosts (node same_day) "data" None)).
Proof.
  apply (@getPosts_slugs_distinct (node same_day) "data" None
           ["one.md"; "notes.txt"; "two.md"; "new.md"]).
  - reflexivity.
  - apply (bool_decide_unpack _). vm_compute. exact I.
  - apply settled_Fulfilled. vm_compute. reflexivity.
Defined.

(** X5. A slug and its file name determine each other: removing the suffix
    from [slug.md] gives back the slug, and putting the suffix back on the
    stripped name of an [.md] file gives back the file name. *)
Theorem strip_md_round_trip (slug file : string) :
  strip_md (slug +:+ ".md") = slug ∧
  (endsWith file ".md" = true → strip_md file +:+ ".md" = file) ∧
  (endsWith file ".md" = false → strip_md file = file).
Proof.
  split; [apply strip_md_of_append|]. split; [apply strip_md_append|].
  unfold strip_md. by intros ->.
Qed.

(** X17. A post that can be looked up and whose file the directory lists is
    in the catalog: when [getPostBySlug] finds the slug and [slug.md] is an
    entry of the directory, the unlimited list of [getPosts] contains the
    metadata of the post found. *)
Theorem found_post_is_listed `{Platform} (rootDir slug : string) (files : list string)
    (posts : list PostMetadata) (post : Post) :
  readdirSync rootDir = Return files → slug +:+ ".md" ∈ files →
  getPosts rootDir None = Fulfilled posts →
  getPostBySlug rootDir slug = Fulfilled (Some post) →
  metadata post ∈ posts.
Proof.
  intros Hfiles Hfile Hposts Hpost.
  destruct (getPosts_mapped _ _ _ _ Hfiles Hposts) as (mapped & Hmapped & _ & Hall).
  rewrite (Hall eq_refl), by_publishedAt_Permutation.
  assert (slug +:+ ".md" ∈ List.filter (λ file, endsWith file ".md") files) as Hin.
  { apply list_elem_of_In, filter_In. split; [by apply list_elem_of_In|apply endsWith_append]. }
  apply list_elem_of_lookup in Hin as [i Hi].
  destruct (Forall2_lookup_l _ _ _ _ _ Hmapped Hi) as (m & Hm & Hmeta).
  apply getPostMetadata_Return in Hmeta as (raw & parsed & Hraw & Hparsed & ->).
  rewrite getPostBySlug_cases, Hraw, Hparsed in Hpost. injection Hpost as <-. simpl.
  rewrite strip_md_of_append in Hm. by eapply list_elem_of_lookup_2.
Qed.

Lemma found_post_is_listed_witness :
  ∃ post, @getPostBySlug (node same_day) "data" "two" = Fulfilled (Some post) ∧
    metadata post ∈ settled (@getPosts (node same_day) "data" None).
Proof.
  destruct (@getPostBySlug (node same_day) "data" "two") as [[post|]|e] eqn:Hpost;
    [|vm_compute in Hpost; discriminate..].
  exists post. split; [reflexivity|].
  apply (@found_post_is_listed (node same_day) "data" "two"
           ["one.md"; "notes.txt"; "two.md"; "new.md"]).
  - reflexivity.
  - apply (bool_decide_unpack _). vm_compute. exact I.
  - apply settled_Fulfilled. vm_compute. reflexivity.
  - exact Hpost.
Defined.


(** ** Limits *)

Lemma take_clamped {A : Type} (l : list A) (k : Z) :
  0 ≤ k → take (Z.to_nat (Z.min k (Z.of_nat (length l)))) l = take (Z.to_nat k) l.
Proof.
  intros Hk. destruct (Z.le_gt_cases k (Z.of_nat (length l))) as [Hle|Hgt].
  - by rewrite Z.min_l.
  - rewrite Z.min_r, Nat2Z.id by lia. rewrite !take_ge; [done|lia..].
Qed.

Lemma slice0_Finite {A : Type} (l : list A) (q : Q) :
  slice0 l (Finite q) =
  if truncate q <? 0
  then take (length l - Z.to_nat (- truncate q)) l
  else take (Z.to_nat (truncate q)) l.
Proof.
  unfold slice0. destruct (Z.ltb_spec (truncate q) 0) as [Hneg|Hpos].
  - f_equal. lia.
  - by apply take_clamped.
Qed.

Lemma getPosts_limited `{Platform} (rootDir : string) (n : number) (full : list PostMetadata) :
  getPosts rootDir None = Fulfilled full →
  getPosts rootDir (Some n) = Fulfilled (if number_truthy n then slice0 full n else full).
Proof.
  intros Hfull. apply getPosts_Fulfilled in Hfull as (files & mapped & Hfiles & Hmapped & ->).
  apply getPosts_Fulfilled. exists files, mapped. split; [done|]. split; [done|].
  by destruct (number_truthy n).
Qed.

(** X6. A positive limit returns exactly the first items of the full
    catalog, as many as the limit rounded down, or all of them when there
    are fewer. *)
Theorem getPosts_positive_limit `{Platform} (rootDir : string) (q : Q)
    (full : list PostMetadata) :
  getPosts rootDir None = Fulfilled full → 0 < Qnum q →
  getPosts rootDir (Some (Finite q)) = Fulfilled (take (Z.to_nat (truncate q)) full).
Proof.
  intros Hfull Hq. rewrite (getPosts_limited _ _ _ Hfull). simpl.
  destruct (Z.eqb_spec (Qnum q) 0) as [?|_]; [lia|]. simpl.
  rewrite slice0_Finite. destruct (truncate_nonneg q) as [Hpos _]; [lia|].
  by destruct (Z.ltb_spec (truncate q) 0); [lia|].
Qed.

Lemma getPosts_positive_limit_witness :
  ∃ full, @getPosts (node scenario) "data" None = Fulfilled full ∧
    @getPosts (node scenario) "data" (Some (Finite (5 # 2))) = Fulfilled (take 2 full).
Proof.
  eexists. split; [reflexivity|].
  apply (@getPosts_positive_limit (node scenario) "data" (5 # 2) _ eq_refl). reflexivity.
Defined.

(** X7. A negative limit does not cap the list; it drops items from its end,
    as many as the limit's magnitude rounded down. *)
Theorem getPosts_negative_limit `{Platform} (rootDir : string) (q : Q)
    (full : list PostMetadata) :
  getPosts rootDir None = Fulfilled full → truncate q < 0 →
  getPosts rootDir (Some (Finite q)) =
    Fulfilled (take (length full - Z.to_nat (- truncate q)) full).
Proof.
  intros Hfull Hq. rewrite (getPosts_limited _ _ _ Hfull). simpl.
  destruct (Z.eqb_spec (Qnum q) 0) as [Hz|_].
  { unfold truncate in Hq. rewrite Hz, Z.quot_0_l in Hq; lia. }
  simpl. rewrite slice0_Finite. by destruct (Z.ltb_spec (truncate q) 0); [|lia].
Qed.

Lemma getPosts_negative_limit_witness :
  ∃ full, @getPosts (node scenario) "data" None = Fulfilled full ∧
    @getPosts (node scenario) "data" (Some (Finite (-2))) = Fulfilled (take 1 full).
Proof.
  eexists. split; [reflexivity|].
  apply (@getPosts_negative_limit (node scenario) "data" (-2) _ eq_refl). reflexivity.
Defined.

(** X8. The limits at the edges: a limit that is not zero but rounds down to
    zero, and negative infinity, give the empty list, whereas zero, [NaN] and
    positive infinity give the full list. *)
Theorem getPosts_edge_limits `{Platform} (rootDir : string) (full : list PostMetadata) :
  getPosts rootDir None = Fulfilled full →
  (∀ q, Qnum q ≠ 0 → truncate q = 0 →
     getPosts rootDir (Some (Finite q)) = Fulfilled []) ∧
  getPosts rootDir (Some (Infinity true)) = Fulfilled [] ∧
  (∀ q, Qnum q = 0 → getPosts rootDir (Some (Finite q)) = Fulfilled full) ∧
  getPosts rootDir (Some NaN) = Fulfilled full ∧
  getPosts rootDir (Some (Infinity false)) = Fulfilled full.
Proof.
  intros Hfull. repeat split.
  - intros q Hq Htrunc. rewrite (getPosts_limited _ _ _ Hfull). simpl.
    destruct (Z.eqb_spec (Qnum q) 0) as [?|_]; [done|]. simpl.
    by rewrite slice0_Finite, Htrunc.
  - by rewrite (getPosts_limited _ _ _ Hfull).
  - intros q Hq. rewrite (getPosts_limited _ _ _ Hfull). simpl. by rewrite Hq.
  - by rewrite (getPosts_limited _ _ _ Hfull).
  - rewrite (getPosts_limited _ _ _ Hfull). simpl. unfold slice0.
    by rewrite Nat2Z.id, firstn_all.
Qed.

Lemma getPosts_edge_limits_witness :
  ∃ full, @getPosts (node scenario) "data" None = Fulfilled full ∧ length full = 3%nat ∧
    @getPosts (node scenario) "data" (Some (Finite (1 # 2))) = Fulfilled [] ∧
    @getPosts (node scenario) "data" (Some (Finite 0)) = Fulfilled full.
Proof.
  eexists. split; [reflexivity|]. split; [reflexivity|].
  destruct (@getPosts_edge_limits (node scenario) "data" _ eq_refl)
    as (Hsmall & _ & Hzero & _).
  split; [by apply Hsmall|by apply Hzero].
Defined.

(** ** Failures of the listing *)

Lemma Array_map_first_Throw {A B : Type} (f : A → completion B)
    (good : list A) (bad : A) (rest : list A) (e : exn) :
  Forall (λ x, ∃ y, f x = Return y) good → f bad = Throw e →
  Array_map f (good ++ bad :: rest)%list = Throw e.
Proof.
  intros Hgood Hbad. induction Hgood as [|x good [y Hy] _ IH]; simpl.
  - by rewrite Hbad.
  - by rewrite Hy, IH.
Qed.

(** X9. [getPosts] rejects with the very exception that stopped it: the one
    [readdirSync] threw, or else the one thrown, by the read or by the
    parse, for the first [.md] entry in directory order that does not load;
    the limit plays no part. *)
Theorem getPosts_rejects_with_first_failure `{Platform} (rootDir : string)
    (limit : option number) (e : exn) :
  (readdirSync rootDir = Throw e → getPosts rootDir limit = Rejected e) ∧
  (∀ (files good : list string) (bad : string) (rest : list string),
     readdirSync rootDir = Return files →
     List.filter (λ file, endsWith file ".md") files = (good ++ bad :: rest)%list →
     Forall (loads rootDir) good →
     (readFileSync (path_join rootDir bad) = Throw e ∨
      ∃ fileContents, readFileSync (path_join rootDir bad) = Return fileContents ∧
        matter fileContents = Throw e) →
     getPosts rootDir limit = Rejected e).
Proof.
  split.
  - intros Hdir. unfold getPosts. by rewrite Hdir.
  - intros files good bad rest Hfiles Hmd Hgood Hbad.
    unfold getPosts. rewrite Hfiles. simpl. rewrite Hmd.
    rewrite (Array_map_first_Throw _ good bad rest e); [done| |].
    + eapply Forall_impl; [exact Hgood|]. intros file. apply getPostMetadata_loads.
    + unfold getPostMetadata. destruct Hbad as [->|(raw & -> & Hparse)]; [done|].
      simpl. by rewrite Hparse.
Qed.

Lemma getPosts_rejects_with_first_failure_witness :
  @getPosts (node malformed) "data" (Some (Finite 1)) = Rejected YAMLException.
Proof.
  apply (proj2 (@getPosts_rejects_with_first_failure (node malformed) "data"
                  (Some (Finite 1)) YAMLException)
           ["a.md"; "bad.md"] ["a.md"] "bad.md" []).
  - reflexivity.
  - reflexivity.
  - constructor; [|constructor].
    apply (@is_Return_loads (node malformed)). vm_compute. reflexivity.
  - right. eexists. split; [vm_compute; reflexivity|]. vm_compute. reflexivity.
Defined.


(** ** Independence of the enumeration order *)

Lemma Array_sort_ext {A : Type} (cmp cmp' : A → A → Z) (l : list A) :
  (∀ a b, cmp a b = cmp' a b) → Array_sort cmp l = Array_sort cmp' l.
Proof.
  intros Hext. induction l as [|x l IH]; [done|]. cbn [Array_sort]. rewrite IH.
  generalize (Array_sort cmp' l). intros sorted.
  induction sorted as [|y sorted IHs]; [done|]. cbn [sort_insert]. by rewrite Hext, IHs.
Qed.

Lemma filter_Permutation {A : Type} (f : A → bool) (l l' : list A) :
  l ≡ₚ l' → List.filter f l ≡ₚ List.filter f l'.
Proof.
  induction 1 as [|x l l' _ IH|x y l|l l' l'' _ IH _ IH']; simpl.
  - done.
  - destruct (f x); by rewrite IH.
  - destruct (f x), (f y); (done || apply Permutation_swap).
  - by rewrite IH.
Qed.

Lemma NoDup_fmap_inj {A B : Type} (f : A → B) (l : list A) (x y : A) :
  NoDup (f <$> l) → x ∈ l → y ∈ l → f x = f y → x = y.
Proof.
  induction l as [|z l IH]; intros Hnodup Hx Hy Hxy; [by apply elem_of_nil in Hx|].
  rewrite fmap_cons in Hnodup. apply NoDup_cons in Hnodup as [Hz Hnodup].
  apply elem_of_cons in Hx as [->|Hx], Hy as [->|Hy].
  - done.
  - destruct Hz. rewrite Hxy. by apply list_elem_of_fmap_2.
  - destruct Hz. rewrite <- Hxy. by apply list_elem_of_fmap_2.
  - by apply IH.
Qed.

Lemma Array_map_Return_fmap {A B : Type} (f : A → completion B) (g : A → B)
    (l : list A) (r : list B) :
  (∀ x y, f x = Return y → g x = y) → Array_map f l = Return r → r = g <$> l.
Proof.
  intros Hg Hr. apply Array_map_Return in Hr.
  induction Hr as [|x y l r Hy _ IH]; [done|]. by rewrite fmap_cons, (Hg x y Hy), IH.
Qed.

(** X10. When no two posts of the catalog have the same timestamp, the
    catalog does not depend on the order in which the directory enumerates
    its entries: enumerated in any other order, the same store gives the
    same list. *)
Theorem getPosts_enumeration_order_free `{P : Platform} (rootDir : string)
    (files files' : list string) (posts : list PostMetadata) :
  readdirSync rootDir = Return files → files ≡ₚ files' →
  getPosts rootDir None = Fulfilled posts →
  NoDup (timestamp <$> posts) →
  @getPosts (with_readdir P (λ _, Return files')) rootDir None = Fulfilled posts.
Proof.
  intros Hfiles Hperm Hposts Hdistinct.
  apply getPosts_Fulfilled in Hposts as (files0 & mapped & Hfiles0 & Hmapped & ->).
  assert (files0 = files) as -> by congruence.
  set (g := λ file, match getPostMetadata rootDir file with
                    | Return m => m
                    | Throw _ => ∅
                    end).
  assert (mapped = g <$> List.filter (λ file, endsWith file ".md") files) as ->.
  { apply (Array_map_Return_fmap _ g _ _) in Hmapped; [done|].
    intros file m Hm. unfold g. by rewrite Hm. }
  apply (@getPosts_Fulfilled (with_readdir P (λ _, Return files'))).
  exists files', (g <$> List.filter (λ file, endsWith file ".md") files').
  split; [done|]. split.
  - apply Array_map_fmap, Forall_forall. intros file Hin.
    rewrite <- (filter_Permutation _ _ _ Hperm) in Hin.
    apply Array_map_Return in Hmapped.
    apply list_elem_of_lookup in Hin as [i Hi].
    destruct (Forall2_lookup_l _ _ _ _ _ Hmapped Hi) as (m & _ & Hm).
    change (getPostMetadata rootDir file = Return (g file)). unfold g. by rewrite Hm.
  - change (@by_publishedAt (with_readdir P (λ _, Return files'))) with (@by_publishedAt P).
    apply (Array_sort_order_free timestamp).
    + intros x y Hx Hy.
      apply (NoDup_fmap_inj timestamp _ x y Hdistinct); by rewrite by_publishedAt_Permutation.
    + apply fmap_Permutation, filter_Permutation. done.
Qed.

Lemma getPosts_enumeration_order_free_witness :
  @getPosts (with_readdir (node scenario) (λ _, Return ["c.md"; "a.md"; "b.md"])) "data" None
  = @getPosts (node scenario) "data" None.
Proof.
  rewrite (settled_Fulfilled (@getPosts (node scenario) "data" None))
    by (vm_compute; reflexivity).
  apply (@getPosts_enumeration_order_free (node scenario) "data" ["a.md"; "b.md"; "c.md"]).
  - reflexivity.
  - rewrite (Permutation_swap "a.md" "c.md"). apply perm_skip, Permutation_swap.
  - apply settled_Fulfilled. vm_compute. reflexivity.
  - apply (bool_decide_unpack _). vm_compute. exact I.
Defined.

(** ** More on the search filter *)

Lemma returned_Return {A : Type} (c : completion (list A)) :
  is_Return c = true → c = Return (returned c).
Proof. by destruct c. Qed.

Lemma includes_trans (s t u : string) :
  includes s t = true → includes t u = true → includes s u = true.
Proof.
  rewrite !includes_spec.
  intros (b1 & a1 & ->) (b2 & a2 & ->).
  exists (b1 +:+ b2), (a2 +:+ a1).
  clear. induction b1 as [|c b1 IH]; rewrite ?append_cons, ?append_empty.
  - induction b2 as [|c b2 IH]; rewrite ?append_cons, ?append_empty.
    + induction u as [|c u IH]; rewrite ?append_cons, ?append_empty; [done|]. by rewrite IH.
    + by rewrite IH.
  - by rewrite IH.
Qed.

Lemma filter_filter_implied {A : Type} (f g : A → bool) (l : list A) :
  (∀ x, f x = true → g x = true) → List.filter f (List.filter g l) = List.filter f l.
Proof.
  intros Hfg. induction l as [|x l IH]; [done|]. simpl.
  destruct (g x) eqn:Hg; simpl; rewrite IH; [done|].
  destruct (f x) eqn:Hf; [|done]. apply Hfg in Hf. congruence.
Qed.

Lemma matching_declared `{Platform} (query : string) (posts : list PostMetadata) :
  Forall title_declared (List.filter (title_matches query) posts).
Proof.
  apply Forall_forall. intros p Hp. apply list_elem_of_In, filter_In in Hp as [_ Hp].
  unfold title_matches in Hp. unfold title_declared.
  by destruct (p !! "title") as [[]|].
Qed.

(** X11. Refining the query can only remove posts: when the lower-cased
    first query occurs in the lower-cased second one, the posts kept for the
    second are those kept for the first that also match the second. *)
Theorem search_narrows `{Platform} (posts kept1 kept2 : list PostMetadata)
    (query1 query2 : string) :
  includes (toLowerCase query2) (toLowerCase query1) = true →
  filtered posts query1 = Return kept1 →
  filtered posts query2 = Return kept2 →
  kept2 = List.filter (title_matches query2) kept1 ∧ kept2 `sublist_of` kept1.
Proof.
  intros Hsub Hkept1 Hkept2.
  apply filtered_Return in Hkept1 as ->, Hkept2 as ->.
  assert (List.filter (title_matches query2) (List.filter (title_matches query1) posts)
          = List.filter (title_matches query2) posts) as Heq.
  { apply filter_filter_implied. intros p. unfold title_matches.
    destruct (p !! "title") as [[title| | | |]|]; try done.
    intros Hin. by apply (includes_trans _ _ _ Hin). }
  split; [done|]. rewrite <- Heq. apply filter_sublist.
Qed.

Lemma search_narrows_witness :
  returned (@filtered (node scenario) (settled (@getPosts (node scenario) "data" None)) "b")
  `sublist_of`
  returned (@filtered (node scenario) (settled (@getPosts (node scenario) "data" None)) "").
Proof.
  apply (@search_narrows (node scenario)
           (settled (@getPosts (node scenario) "data" None)) _ _ "" "b").
  - reflexivity.
  - apply returned_Return. vm_compute. reflexivity.
  - apply returned_Return. vm_compute. reflexivity.
Defined.

(** X12. Searching the results again with the same query changes nothing:
    the filter returns on its own output and returns it unchanged. *)
Theorem search_idempotent `{Platform} (posts kept : list PostMetadata) (query : string) :
  filtered posts query = Return kept → filtered kept query = Return kept.
Proof.
  intros Hkept. apply filtered_Return in Hkept as ->.
  rewrite filtered_declared by apply matching_declared.
  f_equal. by apply filter_filter_implied.
Qed.

Lemma search_idempotent_witness :
  @filtered (node scenario)
    (returned (@filtered (node scenario) (settled (@getPosts (node scenario) "data" None)) "b"))
    "b"
  = Return
      (returned (@filtered (node scenario) (settled (@getPosts (node scenario) "data" None)) "b")).
Proof.
  apply (@search_idempotent (node scenario) (settled (@getPosts (node scenario) "data" None))).
  apply returned_Return. vm_compute. reflexivity.
Defined.

(** X13. What the home page lists is still newest first: the posts the
    search filter keeps out of a catalog returned by [getPosts] are sorted
    non-increasing by timestamp, whatever the query. *)
Theorem search_results_newest_first `{Platform} (rootDir : string) (limit : option number)
    (posts kept : list PostMetadata) (query : string) :
  getPosts rootDir limit = Fulfilled posts →
  filtered posts query = Return kept →
  StronglySorted (newest_first timestamp) kept ∧ kept `sublist_of` posts.
Proof.
  intros Hposts Hkept. apply filtered_Return in Hkept as ->.
  split; [|apply filter_sublist].
  apply StronglySorted_filter. by eapply getPosts_sorted.
Qed.

Lemma search_results_newest_first_witness :
  StronglySorted (newest_first (@timestamp (node scenario)))
    (returned (@filtered (node scenario) (settled (@getPosts (node scenario) "data" None)) "")).
Proof.
  apply (@search_results_newest_first (node scenario) "data" None
           (settled (@getPosts (node scenario) "data" None)) _ "").
  - apply settled_Fulfilled. vm_compute. reflexivity.
  - apply returned_Return. vm_compute. reflexivity.
Defined.


(** * The components *)

Lemma rendered_Return {A : Type} (c : completion (option (list A))) :
  is_rendered c = true → c = Return (Some (rendered c)).
Proof. by destruct c as [[l|]|]. Qed.

Lemma Array_map_indexed_Return {A B : Type} (f : A → nat → completion B)
    (i : nat) (l : list A) (r : list B) :
  Array_map_indexed f i l = Return r →
  length r = length l ∧
  ∀ k y, r !! k = Some y → ∃ x, l !! k = Some x ∧ f x (i + k)%nat = Return y.
Proof.
  revert i r. induction l as [|x l IH]; intros i r; simpl.
  - intros [= <-]. split; [done|]. intros k y Hk. by rewrite lookup_nil in Hk.
  - intros Hr. apply bind_Return in Hr as (y & Hy & Hr).
    apply bind_Return in Hr as (ys & Hys & [= <-]).
    destruct (IH _ _ Hys) as [Hlen Hall]. split; [simpl; by rewrite Hlen|].
    intros [|k] z Hz; simpl in Hz.
    + injection Hz as <-. exists x. by rewrite Nat.add_0_r.
    + destruct (Hall k z Hz) as (x' & Hx' & Hfx'). exists x'. split; [done|].
      by rewrite Nat.add_succ_r.
Qed.

Section components.
Context `{Platform} `{Presentation}.

Lemma Posts_item_Return (n : nat) (post : PostMetadata) (i : nat) (item : PostItem) :
  Posts_item n post i = Return item →
  item_key item = i ∧
  separator item = negb (i =? 0)%nat && negb (i =? n)%nat ∧
  href item = "/blog/" +:+ ToString (post !! "slug") ∧
  heading item = post !! "title" ∧
  summary item = post !! "summary" ∧
  match published item with
  | inl falsy => falsy = post !! "publishedAt" ∧ value_truthy falsy = false
  | inr formatted =>
      ∃ publishedAt, post !! "publishedAt" = Some publishedAt ∧
        value_truthy (Some publishedAt) = true ∧
        formatDate publishedAt = Return formatted
  end.
Proof.
  unfold Posts_item. intros Hitem. apply bind_Return in Hitem as (date & Hdate & [= <-]).
  simpl. repeat (split; [done|]).
  destruct (post !! "publishedAt") as [publishedAt|]; [|by injection Hdate as <-].
  destruct (value_truthy (Some publishedAt)) eqn:Htruthy; [|by injection Hdate as <-].
  apply bind_Return in Hdate as (formatted & Hformatted & [= <-]). by exists publishedAt.
Qed.

(** When [Posts] returns an element, the posts it lists. *)
Lemma Posts_Return (posts : list PostMetadata) (limit : option number)
    (items : list PostItem) :
  Posts posts limit = Return (Some items) →
  ∃ visible,
    visible `prefix_of` posts ∧ (limit = None → visible = posts) ∧
    visible ≠ [] ∧
    Array_map_indexed (Posts_item (length visible)) 0 visible = Return items.
Proof.
  unfold Posts.
  set (visible := match limit with
                  | Some n => if number_truthy n then slice0 posts n else posts
                  | None => posts
                  end).
  intros Hitems. exists visible.
  split; [|split; [by intros ->|]].
  - subst visible. destruct limit as [n|]; [destruct (number_truthy n)|]; try done.
    apply slice0_prefix.
  - destruct (0 <? length visible)%nat eqn:Hlen; [|discriminate]. split.
    + intros Hnil. rewrite Hnil in Hlen. discriminate.
    + apply bind_Return in Hitems as (items' & Hitems' & [= <-]). done.
Qed.
End components.

Lemma getPostBySlug_found_iff `{Platform} (rootDir slug : string) :
  (∃ post, getPostBySlug rootDir slug = Fulfilled (Some post)) ↔
  loads rootDir (slug +:+ ".md").
Proof.
  rewrite getPostBySlug_cases. unfold loads. split.
  - intros [post Hpost]. destruct (readFileSync _) as [raw|]; [|discriminate].
    destruct (matter raw) as [parsed|] eqn:Hparsed; [|discriminate]. by exists raw, parsed.
  - intros (raw & parsed & -> & ->). by eexists.
Qed.

Lemma Post_page_NotFound_iff `{Platform} `{Presentation} (blogDirectory slug : string) :
  Post_page blogDirectory slug = Fulfilled NotFound ↔
  ¬ loads blogDirectory (slug +:+ ".md").
Proof.
  rewrite <- getPostBySlug_found_iff. unfold Post_page.
  destruct (getPostBySlug blogDirectory slug) as [[post|]|e0] eqn:Hpost.
  - simpl. destruct (formatDate _) as [date|e0]; simpl;
      (split; [discriminate|]); intros []; by exists post.
  - simpl. split; [|done]. intros _ [post [=]].
  - rewrite getPostBySlug_cases in Hpost. discriminate.
Qed.

(** X14. The page of a post shows the not-found view exactly when the file
    of the slug cannot be read or parsed; and the page fails only when
    [formatDate] throws on the date of a post that was found. *)
Theorem Post_page_not_found `{Platform} `{Presentation} (blogDirectory slug : string) :
  (Post_page blogDirectory slug = Fulfilled NotFound ↔
     ¬ loads blogDirectory (slug +:+ ".md")) ∧
  (∀ e, Post_page blogDirectory slug = Rejected e →
     ∃ post, getPostBySlug blogDirectory slug = Fulfilled (Some post) ∧
       formatDate (nullish_or_empty (metadata post !! "publishedAt")) = Throw e).
Proof.
  split; [apply Post_page_NotFound_iff|].
  intros e. unfold Post_page.
  destruct (getPostBySlug blogDirectory slug) as [[post|]|e0] eqn:Hpost; simpl.
  - destruct (formatDate _) as [date|e0] eqn:Hdate; simpl; [discriminate|].
    intros [= <-]. by exists post.
  - discriminate.
  - rewrite getPostBySlug_cases in Hpost. discriminate.
Qed.

Lemma Post_page_not_found_witness :
  @Post_page (node malformed) verbatim "data" "bad" = Fulfilled NotFound ∧
  @Post_page (node malformed) verbatim "data" "a" ≠ Fulfilled NotFound.
Proof.
  split.
  - apply (@Post_page_not_found (node malformed) verbatim "data" "bad").
    intros Hloads. apply (@getPostMetadata_loads (node malformed)) in Hloads as [m Hm].
    vm_compute in Hm. discriminate.
  - intros Hpage.
    apply (@Post_page_not_found (node malformed) verbatim "data" "a") in Hpage.
    apply Hpage, (@is_Return_loads (node malformed)). vm_compute. reflexivity.
Defined.

(** X15. Every link of the list leads to an article: for the posts of a
    catalog returned by [getPosts], or any selection of them, each item
    that [Posts] renders links to [/blog/] followed by a slug whose page is
    not the not-found view. *)
Theorem listed_post_has_page `{Platform} `{Presentation} (rootDir : string)
    (limit limit' : option number) (posts shown : list PostMetadata)
    (items : list PostItem) (item : PostItem) :
  getPosts rootDir limit = Fulfilled posts →
  (∀ p, p ∈ shown → p ∈ posts) →
  Posts shown limit' = Return (Some items) → item ∈ items →
  ∃ slug, href item = "/blog/" +:+ slug ∧ Post_page rootDir slug ≠ Fulfilled NotFound.
Proof.
  intros Hposts Hshown Hitems Hitem.
  apply Posts_Return in Hitems as (visible & Hprefix & _ & _ & Hitems).
  apply Array_map_indexed_Return in Hitems as [_ Hitems].
  apply list_elem_of_lookup in Hitem as [k Hk].
  destruct (Hitems k item Hk) as (p & Hp & Hrender).
  apply Posts_item_Return in Hrender as (_ & _ & Hhref & _).
  assert (p ∈ posts) as Hin.
  { apply Hshown. eapply elem_of_prefix; [|exact Hprefix]. by eapply list_elem_of_lookup_2. }
  destruct (getPosts_elements _ _ _ _ Hposts Hin) as (files & file & _ & _ & Hmd & Hm).
  pose proof Hm as Hloads.
  apply getPostMetadata_Return in Hm as (raw & parsed & _ & _ & ->).
  exists (strip_md file). split.
  - rewrite Hhref, lookup_insert_eq. done.
  - intros Hnone. apply Post_page_NotFound_iff in Hnone. apply Hnone.
    rewrite (strip_md_append file Hmd). by apply getPostMetadata_loads; eexists.
Qed.

Lemma listed_post_has_page_witness :
  ∃ item slug,
    rendered (@Posts verbatim (settled (@getPosts (node scenario) "data" None)) None)
      !! 0%nat = Some item ∧
    href item = "/blog/" +:+ slug ∧
    @Post_page (node scenario) verbatim "data" slug ≠ Fulfilled NotFound.
Proof.
  set (item := {| item_key := 0; separator := false; href := "/blog/b";
                  heading := Some (VStr "B"); summary := None;
                  published := inr "2025-03-01" |}).
  assert (rendered (@Posts verbatim (settled (@getPosts (node scenario) "data" None)) None)
            !! 0%nat = Some item) as Hitem by (vm_compute; reflexivity).
  destruct (@listed_post_has_page (node scenario) verbatim "data" None None
              (settled (@getPosts (node scenario) "data" None))
              (settled (@getPosts (node scenario) "data" None))
              (rendered (@Posts verbatim (settled (@getPosts (node scenario) "data" None)) None))
              item) as (slug & Hhref & Hpage).
  - apply settled_Fulfilled. vm_compute. reflexivity.
  - done.
  - apply rendered_Return. vm_compute. reflexivity.
  - by eapply list_elem_of_lookup_2.
  - by exists item, slug.
Defined.


